(** * Fokker-Planck pusher of pusherFP.ipynb

    A shallow embedding of the notebook's sampling, interpolation and
    integration cells (cells 2, 3 and 4 of [src/pusherFP.ipynb]).

    Numbers.  The notebook computes in binary64.  The embedding idealises
    every float as a real number of [R]: rounding, overflow and nan are
    outside the model.  An operation that has no real result (the square
    root of a negative number, the maximum of an empty array, an
    interpolation query outside the grid) is an exceptional outcome
    [Raise e].

    State.  The cells mutate the kernel's global variables [gmdist],
    [gmdist_dump1..3] and the hidden state of [np.random]; they are
    threaded through a small state-and-exception monad [nb]. *)

From Stdlib Require Import Reals Lra Lia ZArith.
From stdpp Require Import list.

Open Scope R_scope.

(** ** Outcomes *)

Inductive exn : Type :=
| ValueError_below        (* interp1d: x_new below the interpolation range *)
| ValueError_above        (* interp1d: x_new above the interpolation range *)
| ValueError_math_domain  (* square root of a negative number *)
| ValueError_zero_size    (* np.max of a zero-size array *)
| ValueError_negative_dimensions
| ZeroDivisionError
| IndexError.

Inductive result (A : Type) : Type :=
| Ok (a : A)
| Raise (e : exn).
Arguments Ok {A} a.
Arguments Raise {A} e.

(** ** The helpers the notebook imports *)

Module pushers.

(** Modelled from the spec: [sqrt] reaches the notebook through
    [from pushers import *] and the module pushers is not among the
    sources.  The spec uses it as the real square root of a
    non-negative number (sqrt(dt), sqrt(R)), and that is all it says of
    it.  On a negative argument, which has no real square root, the
    model ends in [Raise ValueError_math_domain]: a convention for "no
    real value" (Python's [math.sqrt] raises, [numpy.sqrt] yields nan),
    not a reading of code.  What the step does with a negative diffusion
    rate is therefore stated for any function in the place of [sqrt]
    ([particle_with]), not for this one. *)
Definition sqrt (x : R) : result R :=
  if Rlt_dec x 0 then Raise ValueError_math_domain else Ok (R_sqrt.sqrt x).

End pushers.

Module np.

(** [np.max a]: raises on a zero-size array. *)
Definition max (a : list R) : result R :=
  match a with
  | [] => Raise ValueError_zero_size
  | a0 :: a' => Ok (fold_left Rmax a' a0)
  end.

(** [np.linspace(start, stop, num)] with the default [endpoint=True]:
    [arange(0, num) * step + start] with [step = (stop - start) / (num - 1)],
    the last entry overwritten with [stop] when [num > 1]. *)
Definition linspace (start stop : R) (num : nat) : list R :=
  match num with
  | O => []
  | S O => [start]
  | S div =>
      let step := (stop - start) / INR div in
      map (fun i => INR i * step + start) (seq 0 div) ++ [stop]
  end.

(** [np.copy a]: a fresh array with the same entries. *)
Definition copy (a : list R) : list R := a.

(** Membership in the bin [[lo, hi)] of a histogram; the last bin also
    takes its right edge. *)
Definition in_bin (lo hi : R) (last : bool) (v : R) : bool :=
  if Rle_dec lo v
  then if Rlt_dec v hi then true
       else last && (if Rle_dec v hi then true else false)
  else false.

(** [np.histogram(a, bins)[0]] for an array [bins] of increasing edges:
    one count per pair of neighbouring edges; entries outside
    [[bins[0], bins[-1]]] are counted nowhere. *)
Fixpoint histogram (a : list R) (bins : list R) : list nat :=
  match bins with
  | lo :: ((hi :: rest) as tl) =>
      length (List.filter (in_bin lo hi (match rest with [] => true | _ => false end)) a)
      :: histogram a tl
  | _ => []
  end.

End np.

Module interpolate.

(** The object built by [interpolate.interp1d(x, y)] with the defaults
    [kind='linear'], [bounds_error=True], for an array [x] that is
    already in increasing order, as cell 3 builds it (interp1d would
    sort any other). *)
Record interp1d_obj : Type := interp1d { x : list R; y : list R }.

(** [np.searchsorted(x, x_new)] (side left) on an increasing array: the
    number of leading entries strictly below [x_new]. *)
Fixpoint searchsorted (xs : list R) (x_new : R) : nat :=
  match xs with
  | [] => O
  | x0 :: xs' => if Rlt_dec x0 x_new then S (searchsorted xs' x_new) else O
  end.

(** [idx.clip(1, len(x) - 1)] *)
Definition clip (idx lo hi : nat) : nat := Nat.min (Nat.max idx lo) hi.

(** The linear rule of interp1d:
    [slope = (y_hi - y_lo) / (x_hi - x_lo)],
    [y_new = slope * (x_new - x_lo) + y_lo]. *)
Definition call_linear (f : interp1d_obj) (x_new : R) : R :=
  let hi := clip (searchsorted (x f) x_new) 1 (length (x f) - 1) in
  let lo := (hi - 1)%nat in
  let x_lo := nth lo (x f) 0 in
  let x_hi := nth hi (x f) 0 in
  let y_lo := nth lo (y f) 0 in
  let y_hi := nth hi (y f) 0 in
  let slope := (y_hi - y_lo) / (x_hi - x_lo) in
  slope * (x_new - x_lo) + y_lo.

(** Calling the interpolant: the bounds check raises outside
    [[x[0], x[-1]]]. *)
Definition call (f : interp1d_obj) (x_new : R) : result R :=
  if Rlt_dec x_new (nth 0 (x f) 0) then Raise ValueError_below
  else if Rlt_dec (nth (length (x f) - 1) (x f) 0) x_new then Raise ValueError_above
  else Ok (call_linear f x_new).

End interpolate.

(** ** The kernel state and its monad *)

Record kernel : Type := Kernel {
  gmdist : list R;
  gmdist_dump1 : list R;
  gmdist_dump2 : list R;
  gmdist_dump3 : list R;
  randn_calls : nat   (* draws taken so far from np.random *)
}.

Definition nb (A : Type) : Type := kernel -> result (A * kernel).

Definition ret {A} (a : A) : nb A := fun k => Ok (a, k).

Definition bind {A B} (m : nb A) (f : A -> nb B) : nb B :=
  fun k => match m k with
           | Ok (a, k') => f a k'
           | Raise e => Raise e
           end.

Definition lift {A} (r : result A) : nb A :=
  fun k => match r with
           | Ok a => Ok (a, k)
           | Raise e => Raise e
           end.

Notation "x <- m ;; f" := (bind m (fun x => f))
  (at level 100, m at next level, right associativity).
Notation "m ;; f" := (bind m (fun _ => f))
  (at level 100, right associativity).

(** [for a in l: body a] *)
Fixpoint for_ {A} (l : list A) (body : A -> nb unit) : nb unit :=
  match l with
  | [] => ret tt
  | a :: l' => body a ;; for_ l' body
  end.

(** [range(n)] for a Python integer [n]: empty when [n <= 0]. *)
Definition range (n : Z) : list nat := seq 0 (Z.to_nat n).

(** [gmdist[i]] *)
Definition getitem (i : nat) : nb R :=
  fun k => match gmdist k !! i with
           | Some g => Ok (g, k)
           | None => Raise IndexError
           end.

(** [gmdist[i] = v] *)
Definition setitem (i : nat) (v : R) : nb unit :=
  fun k => if decide (i < length (gmdist k))%nat
           then Ok (tt, Kernel (<[i := v]> (gmdist k)) (gmdist_dump1 k)
                               (gmdist_dump2 k) (gmdist_dump3 k) (randn_calls k))
           else Raise IndexError.

(** [gmdist_dump2 = np.copy(gmdist)] *)
Definition save_dump2 : nb unit :=
  fun k => Ok (tt, Kernel (gmdist k) (gmdist_dump1 k)
                          (np.copy (gmdist k)) (gmdist_dump3 k) (randn_calls k)).

(** [gmdist_dump3 = np.copy(gmdist)] *)
Definition save_dump3 : nb unit :=
  fun k => Ok (tt, Kernel (gmdist k) (gmdist_dump1 k)
                          (gmdist_dump2 k) (np.copy (gmdist k)) (randn_calls k)).

(** ** Cell 4: the integration loop *)

Section Loop.

Variable Nsmpl : Z.            (* number of particles *)
Variable tdim : Z.             (* number of timesteps *)
Variable dt : R.               (* timestep *)
Variables S_intrp R_intrp : R -> result R.
Variable randn : nat -> R.     (* the successive values of np.random.randn() *)

(** [np.random.randn()]: the next draw of the global generator. *)
Definition np_random_randn : nb R :=
  fun k => Ok (randn (randn_calls k),
               Kernel (gmdist k) (gmdist_dump1 k) (gmdist_dump2 k)
                      (gmdist_dump3 k) (S (randn_calls k))).

(** The body of [for i in range(Nsmpl)]. *)
Definition particle (i : nat) : nb unit :=
  g <- getitem i ;;
  Sv <- lift (S_intrp g) ;;
  g <- getitem i ;;
  Rv <- lift (R_intrp g) ;;
  sqrt_dt <- lift (pushers.sqrt dt) ;;
  z <- np_random_randn ;;
  let dW := sqrt_dt * z in
  sqrt_R <- lift (pushers.sqrt Rv) ;;
  let dgamma := - Sv * dt + sqrt_R * dW in
  g <- getitem i ;;
  setitem i (g + dgamma) ;;
  g <- getitem i ;;
  if Rlt_dec g 1 then setitem i 1 else ret tt.

(** [int(tdim/2)]: true division, then truncation towards zero. *)
Definition int_tdim_half : Z := Z.quot tdim 2.

(** The body of [for t in tqdm(range(tdim))]. *)
Definition timestep (t : nat) : nb unit :=
  for_ (range Nsmpl) particle ;;
  if (Z.of_nat t =? int_tdim_half)%Z then save_dump2 else ret tt.

Definition cell4 : nb unit :=
  for_ (range tdim) timestep ;;
  save_dump3.

End Loop.

(** ** Cells 2 and 3, and the notebook as a whole *)

Section Notebook.

(** [S39], [R40] and the physical constants behind [Kalpha] come from
    the module pushers, which is not among the sources: they are
    parameters of the development. *)
Variable S39 : R -> R -> R.          (* S39(chi, Kalpha) *)
Variable R40 : R -> R -> R -> R.     (* R40(chi, gamma, Kalpha) *)
Variable Kalpha : R.

Variable Nsmpl : Z.                  (* number of particles *)
Variable chi0 : R.                   (* reference chi0 *)
Variable tmax : R.                   (* simulation duration *)
Variable tdim : Z.                   (* number of timesteps *)
Variable standard_normal : nat -> R. (* the entries rng.standard_normal fills in *)
Variable randn : nat -> R.           (* the successive values of np.random.randn() *)

(** [gmdist[gmdist<1]=1] *)
Definition mask_below_1 (a : list R) : list R :=
  map (fun v => if Rlt_dec v 1 then 1 else v) a.

(** Cell 2: sampling and the simulation parameters; yields [dt].  The
    cell assigns [gmdist] and the three dumps and draws from [rng] only:
    the state of [np.random] is left as it was. *)
Definition cell2 : nb R :=
  fun k0 =>
    if (Nsmpl <? 0)%Z then Raise ValueError_negative_dimensions
    else
      let g := map (fun i => 1800 + 90 * standard_normal i) (range Nsmpl) in
      let g := mask_below_1 g in
      let k := Kernel g (np.copy g)
                      (map (fun v => v * 0) (np.copy g))
                      (map (fun v => v * 0) (np.copy g)) (randn_calls k0) in
      if (tdim =? 0)%Z then Raise ZeroDivisionError
      else Ok (tmax / IZR tdim, k).

(** Cell 3: the grid and the two interpolants. *)
Definition cell3 : nb (interpolate.interp1d_obj * interpolate.interp1d_obj) :=
  fun k =>
    match np.max (gmdist k) with
    | Raise e => Raise e
    | Ok m =>
        let gmlst := np.linspace 1 (2 * m) 200 in
        let S_lst := map (fun gm => S39 (gm / 1800 * chi0) Kalpha) gmlst in
        let S_intrp := interpolate.interp1d gmlst S_lst in
        let R_lst := map (fun gm => R40 (gm / 1800 * chi0) gm Kalpha) gmlst in
        let R_intrp := interpolate.interp1d gmlst R_lst in
        Ok ((S_intrp, R_intrp), k)
    end.

(** Cells 2, 3 and 4 run in sequence on a fresh kernel; the outcome is
    the three dumps the last cell pickles. *)
Definition notebook : result (list R * list R * list R) :=
  let run : nb unit :=
    dt <- cell2 ;;
    intrp <- cell3 ;;
    cell4 Nsmpl tdim dt (interpolate.call (fst intrp))
          (interpolate.call (snd intrp)) randn in
  match run (Kernel [] [] [] [] 0) with
  | Ok (_, k) => Ok (gmdist_dump1 k, gmdist_dump2 k, gmdist_dump3 k)
  | Raise e => Raise e
  end.

End Notebook.

(** ** Cell 5: the histograms *)

Section Histograms.

(** [arraycenter] comes from the module pushers, which is not among the
    sources: it is a parameter. *)
Variable arraycenter : list R -> list R.

Definition nbins : nat := 50.

(** The bin edges [np.linspace(1,1800+4*90,nbins)]. *)
Definition bin_edges : list R := np.linspace 1 (1800 + 4 * 90) nbins.

(** One of the three blocks of cell 5: the counts and the abscissae. *)
Definition dump_histogram (dump : list R) : list nat * list R :=
  let gmdist_y := np.histogram dump bin_edges in
  let gmdist_x := bin_edges in
  (gmdist_y, arraycenter gmdist_x).

Definition cell5 (dumps : list R * list R * list R) :
    (list nat * list R) * (list nat * list R) * (list nat * list R) :=
  let '(gmdist_dump1, gmdist_dump2, gmdist_dump3) := dumps in
  (dump_histogram gmdist_dump1, dump_histogram gmdist_dump2,
   dump_histogram gmdist_dump3).

End Histograms.

(** ** Vocabulary of the statements *)

(** The entries of [a] within [[lo, hi]]. *)
Definition within (lo hi : R) (a : list R) : list R :=
  List.filter (fun v => if Rle_dec lo v
                        then if Rle_dec v hi then true else false
                        else false) a.


(** The lower bound of [if gmdist[i] < 1: gmdist[i] = 1]. *)
Definition clamp1 (v : R) : R := if Rlt_dec v 1 then 1 else v.

(** What one pass through the body of the particle loop stores for a
    particle at [g] that receives the draw [z]: the exceptions of the
    body in the order the body meets them, else the clamped update. *)
Definition pushed (dt : R) (S_intrp R_intrp : R -> result R) (z g : R) : result R :=
  match S_intrp g with
  | Raise e => Raise e
  | Ok Sv =>
      match R_intrp g with
      | Raise e => Raise e
      | Ok Rv =>
          match pushers.sqrt dt with
          | Raise e => Raise e
          | Ok sqrt_dt =>
              match pushers.sqrt Rv with
              | Raise e => Raise e
              | Ok sqrt_R => Ok (clamp1 (g + (- Sv * dt + sqrt_R * (sqrt_dt * z))))
              end
          end
      end
  end.

(** One sweep of the particle loop, [for i in range(Nsmpl)], without the
    snapshot that follows it. *)
Definition sweep (Nsmpl : Z) (dt : R) (S_intrp R_intrp : R -> result R)
    (randn : nat -> R) : nb unit :=
  for_ (range Nsmpl) (particle dt S_intrp R_intrp randn).

(** [n] sweeps in a row: the ensemble after [n] completed timesteps. *)
Definition sweeps (Nsmpl : Z) (dt : R) (S_intrp R_intrp : R -> result R)
    (randn : nat -> R) (n : nat) : nb unit :=
  for_ (seq 0 n) (fun _ => sweep Nsmpl dt S_intrp R_intrp randn).

(** The kernel with another ensemble and draw count. *)
Definition with_gmdist (g : list R) (c : nat) (k : kernel) : kernel :=
  Kernel g (gmdist_dump1 k) (gmdist_dump2 k) (gmdist_dump3 k) c.

Definition with_dump2 (d : list R) (k : kernel) : kernel :=
  Kernel (gmdist k) (gmdist_dump1 k) d (gmdist_dump3 k) (randn_calls k).

(** The draws a pass over the particles in the order [p] must be fed so
    that every particle receives the draw it has in the notebook's order:
    the [j]-th pass, at particle [p[j]], takes draw number [c + p[j]]. *)
Definition draws_for (p : list nat) (c : nat) (randn : nat -> R) : nat -> R :=
  fun n => randn (c + nth (n - c) p O)%nat.

(** The body of the particle loop with the imported name [sqrt] left
    open: [sqrt_] stands for whatever function the module pushers binds
    to that name.  With [pushers.sqrt] in its place it is [particle]. *)
Definition particle_with (sqrt_ : R -> result R) (dt : R)
    (S_intrp R_intrp : R -> result R) (randn : nat -> R) (i : nat) : nb unit :=
  g <- getitem i ;;
  Sv <- lift (S_intrp g) ;;
  g <- getitem i ;;
  Rv <- lift (R_intrp g) ;;
  sqrt_dt <- lift (sqrt_ dt) ;;
  z <- np_random_randn randn ;;
  let dW := sqrt_dt * z in
  sqrt_R <- lift (sqrt_ Rv) ;;
  let dgamma := - Sv * dt + sqrt_R * dW in
  g <- getitem i ;;
  setitem i (g + dgamma) ;;
  g <- getitem i ;;
  if Rlt_dec g 1 then setitem i 1 else ret tt.

(** An ensemble within the physical range: every Lorentz factor at
    least 1. *)
Definition physical (g : list R) : Prop := Forall (fun v => 1 <= v) g.

(** An outcome with its kernel changed by [f]. *)
Definition on_kernel (f : kernel -> kernel) (r : result (unit * kernel)) :
    result (unit * kernel) :=
  match r with
  | Ok (u, k) => Ok (u, f k)
  | Raise e => Raise e
  end.

(** What a pass over the distinct particles [l] with draws [r] leaves
    behind, particle by particle. *)
Definition pass_result (dt : R) (S_intrp R_intrp : R -> result R)
    (l : list nat) (r : nat -> R) (k k' : kernel) : Prop :=
  k' = with_gmdist (gmdist k') (randn_calls k + length l) k
  /\ length (gmdist k') = length (gmdist k)
  /\ (forall i, i ∉ l -> gmdist k' !! i = gmdist k !! i)
  /\ (forall j i, l !! j = Some i ->
        exists g v, gmdist k !! i = Some g
                    /\ pushed dt S_intrp R_intrp (r (randn_calls k + j)%nat) g = Ok v
                    /\ gmdist k' !! i = Some v).

(** ** The monad and the loops *)

Lemma bind_Ok {A B} (m : nb A) (f : A -> nb B) k a k' :
  m k = Ok (a, k') -> bind m f k = f a k'.
Proof. intros H. unfold bind. now rewrite H. Qed.

Lemma bind_Raise {A B} (m : nb A) (f : A -> nb B) k e :
  m k = Raise e -> bind m f k = Raise e.
Proof. intros H. unfold bind. now rewrite H. Qed.

Lemma bind_Ok_inv {A B} (m : nb A) (f : A -> nb B) k r :
  bind m f k = Ok r -> exists a k', m k = Ok (a, k') /\ f a k' = Ok r.
Proof.
  unfold bind. destruct (m k) as [[a k']|e]; [|discriminate].
  intros H. now exists a, k'.
Qed.

Lemma for_app {A} (l1 l2 : list A) (body : A -> nb unit) k :
  for_ (l1 ++ l2) body k = bind (for_ l1 body) (fun _ => for_ l2 body) k.
Proof.
  revert k. induction l1 as [|a l1 IH]; intros k; simpl.
  - reflexivity.
  - unfold bind in *. destruct (body a k) as [[u k']|e]; [apply IH|reflexivity].
Qed.

Lemma for_ext {A} (l : list A) (f g : A -> nb unit) :
  (forall a k, a ∈ l -> f a k = g a k) -> forall k, for_ l f k = for_ l g k.
Proof.
  induction l as [|a l IH]; intros H k; simpl; [reflexivity|].
  unfold bind. rewrite (H a k) by left.
  destruct (g a k) as [[u k']|e]; [|reflexivity].
  apply IH. intros b k0 Hb. apply H. now right.
Qed.

(** ** The body of the particle loop in closed form *)

Section Body.

Variable dt : R.
Variables S_intrp R_intrp : R -> result R.
Variable randn : nat -> R.

Lemma particle_closed i k :
  particle dt S_intrp R_intrp randn i k =
  match gmdist k !! i with
  | None => Raise IndexError
  | Some g =>
      match pushed dt S_intrp R_intrp (randn (randn_calls k)) g with
      | Raise e => Raise e
      | Ok v => Ok (tt, with_gmdist (<[i := v]> (gmdist k)) (S (randn_calls k)) k)
      end
  end.
Proof.
  unfold particle, pushed, bind, getitem, lift, np_random_randn, setitem, ret; simpl.
  destruct (gmdist k !! i) as [g|] eqn:Hg; [|reflexivity].
  pose proof (lookup_lt_Some _ _ _ Hg) as Hi.
  destruct (S_intrp g) as [Sv|e]; [rewrite Hg|reflexivity].
  destruct (R_intrp g) as [Rv|e]; [|reflexivity].
  destruct (pushers.sqrt dt) as [sd|e]; [simpl|reflexivity].
  destruct (pushers.sqrt Rv) as [sR|e]; [simpl; rewrite Hg|reflexivity].
  case_decide; [simpl|simpl in *; lia].
  rewrite list_lookup_insert_eq by exact Hi.
  unfold clamp1, with_gmdist.
  destruct (Rlt_dec _ 1) as [Hlt|Hge]; simpl; [|reflexivity].
  case_decide; [|simpl in *; rewrite length_insert in *; lia].
  now rewrite list_insert_insert_eq.
Qed.

End Body.

(** ** Evaluating the body *)

Lemma sqrt_nonneg x : 0 <= x -> pushers.sqrt x = Ok (sqrt x).
Proof.
  intros Hx. unfold pushers.sqrt.
  destruct (Rlt_dec x 0) as [Hlt|_]; [lra|reflexivity].
Qed.

Lemma clamp1_ge v : 1 <= clamp1 v.
Proof. unfold clamp1. destruct (Rlt_dec v 1); lra. Qed.

Lemma clamp1_id v : 1 <= v -> clamp1 v = v.
Proof. unfold clamp1. destruct (Rlt_dec v 1); lra. Qed.

Lemma clamp1_lt v : v < 1 -> clamp1 v = 1.
Proof. unfold clamp1. destruct (Rlt_dec v 1); lra. Qed.

Lemma pushed_Ok dt (S_intrp R_intrp : R -> result R) z g Sv Rv :
  S_intrp g = Ok Sv -> R_intrp g = Ok Rv -> 0 <= dt -> 0 <= Rv ->
  pushed dt S_intrp R_intrp z g =
  Ok (clamp1 (g + (- Sv * dt + sqrt Rv * (sqrt dt * z)))).
Proof.
  intros HS HR Hdt HRv. unfold pushed.
  now rewrite HS, HR, (sqrt_nonneg dt Hdt), (sqrt_nonneg Rv HRv).
Qed.

Lemma pushed_ge_1 dt (S_intrp R_intrp : R -> result R) z g v :
  pushed dt S_intrp R_intrp z g = Ok v -> 1 <= v.
Proof.
  unfold pushed.
  destruct (S_intrp g); [|discriminate].
  destruct (R_intrp g); [|discriminate].
  destruct (pushers.sqrt dt); [|discriminate].
  destruct (pushers.sqrt _); [|discriminate].
  intros [= <-]. apply clamp1_ge.
Qed.

(** Runs one pass of the body on a concrete kernel: the goal's leading
    [particle] is replaced by its closed form and the pushed value by
    the equation [E]. *)
Ltac push_with E :=
  rewrite particle_closed; cbn [gmdist randn_calls lookup list_lookup];
  rewrite E by lra;
  unfold with_gmdist;
  cbn [gmdist gmdist_dump1 gmdist_dump2 gmdist_dump3 randn_calls
       insert list_insert].

(** The scenario of the spec: constant drift 10, no diffusion, every
    draw 0, timestep 0.005. *)
Lemma pushed_drift_only g :
  1.05 <= g ->
  pushed 0.005 (fun _ => Ok 10) (fun _ => Ok 0) 0 g = Ok (g - 0.05).
Proof.
  intros Hg.
  rewrite (pushed_Ok _ _ _ _ _ 10 0) by (reflexivity || lra).
  rewrite sqrt_0, clamp1_id by lra. f_equal. lra.
Qed.

Lemma sweep_drift_only a b c d1 d2 d3 n :
  1.05 <= a -> 1.05 <= b -> 1.05 <= c ->
  sweep 3 0.005 (fun _ => Ok 10) (fun _ => Ok 0) (fun _ => 0)
        (Kernel [a; b; c] d1 d2 d3 n)
  = Ok (tt, Kernel [a - 0.05; b - 0.05; c - 0.05] d1 d2 d3 (S (S (S n)))).
Proof.
  intros Ha Hb Hc. unfold sweep, range.
  change (Z.to_nat 3) with 3%nat. cbn [seq for_]. unfold bind.
  do 3 push_with pushed_drift_only. reflexivity.
Qed.

(** ** Invariants of the loops *)

Lemma for_invariant {A} (P : kernel -> Prop) (l : list A) (body : A -> nb unit) :
  (forall a k k', a ∈ l -> P k -> body a k = Ok (tt, k') -> P k') ->
  forall k k', P k -> for_ l body k = Ok (tt, k') -> P k'.
Proof.
  induction l as [|a l IH]; intros Hbody k k' HP Hrun; simpl in Hrun.
  - unfold ret in Hrun. now injection Hrun as <-.
  - apply bind_Ok_inv in Hrun as ([] & k1 & Ha & Hrest).
    eapply IH; [|eapply Hbody; [left|exact HP|exact Ha]|exact Hrest].
    intros b k2 k3 Hb. apply Hbody. now right.
Qed.

Lemma particle_Ok_inv dt S_intrp R_intrp randn i k k' :
  particle dt S_intrp R_intrp randn i k = Ok (tt, k') ->
  exists g v, gmdist k !! i = Some g
    /\ pushed dt S_intrp R_intrp (randn (randn_calls k)) g = Ok v
    /\ k' = with_gmdist (<[i := v]> (gmdist k)) (S (randn_calls k)) k.
Proof.
  rewrite particle_closed.
  destruct (gmdist k !! i) as [g|]; [|discriminate].
  destruct (pushed _ _ _ _ g) as [v|e] eqn:Hv; [|discriminate].
  intros [= <-]. now exists g, v.
Qed.

Lemma particle_physical dt S_intrp R_intrp randn i k k' :
  physical (gmdist k) ->
  particle dt S_intrp R_intrp randn i k = Ok (tt, k') ->
  physical (gmdist k').
Proof.
  intros HP Hrun.
  apply particle_Ok_inv in Hrun as (g & v & Hg & Hv & ->). simpl.
  apply Forall_insert; [exact HP|]. eapply pushed_ge_1, Hv.
Qed.

Lemma sweep_physical Nsmpl dt S_intrp R_intrp randn k k' :
  physical (gmdist k) ->
  sweep Nsmpl dt S_intrp R_intrp randn k = Ok (tt, k') ->
  physical (gmdist k').
Proof.
  unfold sweep. intros HP Hrun.
  eapply (for_invariant (fun k => physical (gmdist k))); [|exact HP|exact Hrun].
  intros i k1 k2 _. apply particle_physical.
Qed.

Lemma timestep_sweep Nsmpl tdim dt S_intrp R_intrp randn t k :
  timestep Nsmpl tdim dt S_intrp R_intrp randn t k =
  match sweep Nsmpl dt S_intrp R_intrp randn k with
  | Ok (_, k') =>
      Ok (tt, if (Z.of_nat t =? Z.quot tdim 2)%Z
              then with_dump2 (gmdist k') k' else k')
  | Raise e => Raise e
  end.
Proof.
  unfold timestep, sweep, bind, int_tdim_half.
  destruct (for_ _ _ k) as [[[] k']|e]; [|reflexivity].
  now destruct (Z.of_nat t =? _)%Z.
Qed.

Lemma timestep_physical Nsmpl tdim dt S_intrp R_intrp randn t k k' :
  physical (gmdist k) ->
  timestep Nsmpl tdim dt S_intrp R_intrp randn t k = Ok (tt, k') ->
  physical (gmdist k').
Proof.
  intros HP. rewrite timestep_sweep.
  destruct (sweep _ _ _ _ _ k) as [[[] k1]|e] eqn:Hs; [|discriminate].
  intros [= <-]. apply sweep_physical in Hs; [|exact HP].
  now destruct (Z.of_nat t =? _)%Z.
Qed.

Lemma cell4_physical Nsmpl tdim dt S_intrp R_intrp randn k k' :
  physical (gmdist k) ->
  cell4 Nsmpl tdim dt S_intrp R_intrp randn k = Ok (tt, k') ->
  physical (gmdist k') /\ physical (gmdist_dump3 k').
Proof.
  intros HP Hrun. unfold cell4 in Hrun.
  apply bind_Ok_inv in Hrun as ([] & k1 & Hloop & Hsave).
  assert (physical (gmdist k1)) as HP1.
  { eapply (for_invariant (fun k => physical (gmdist k))); [|exact HP|exact Hloop].
    intros t k2 k3 _. apply timestep_physical. }
  unfold save_dump3 in Hsave. injection Hsave as <-. now split.
Qed.

(** C2. Whatever the draw, the value the body leaves in the ensemble is
    at least 1, and it does leave one whenever the interpolants answer
    with R >= 0 and dt >= 0; a timestep and the whole loop keep an
    ensemble that is everywhere at least 1 that way; a particle at 1.002
    with S = 1, dt = 0.01 and R = 0 ends the step at exactly 1. *)
Theorem lower_bound_invariant :
  (forall dt S_intrp R_intrp randn i k k',
      particle dt S_intrp R_intrp randn i k = Ok (tt, k') ->
      exists v, gmdist k' !! i = Some v /\ 1 <= v)
  /\ (forall dt (S_intrp R_intrp : R -> result R) randn i k g Sv Rv,
      gmdist k !! i = Some g ->
      S_intrp g = Ok Sv -> R_intrp g = Ok Rv -> 0 <= dt -> 0 <= Rv ->
      exists k' v, particle dt S_intrp R_intrp randn i k = Ok (tt, k')
                   /\ gmdist k' !! i = Some v /\ 1 <= v)
  /\ (forall Nsmpl tdim dt S_intrp R_intrp randn t k k',
      physical (gmdist k) ->
      timestep Nsmpl tdim dt S_intrp R_intrp randn t k = Ok (tt, k') ->
      physical (gmdist k'))
  /\ (forall Nsmpl tdim dt S_intrp R_intrp randn k k',
      physical (gmdist k) ->
      cell4 Nsmpl tdim dt S_intrp R_intrp randn k = Ok (tt, k') ->
      physical (gmdist k') /\ physical (gmdist_dump3 k'))
  /\ (forall randn n,
      particle 0.01 (fun _ => Ok 1) (fun _ => Ok 0) randn 0
               (Kernel [1.002] [1.002] [0] [0] n)
      = Ok (tt, Kernel [1] [1.002] [0] [0] (S n))).
Proof.
  split; [|split; [|split; [|split]]].
  - intros dt S_intrp R_intrp randn i k k' Hrun.
    apply particle_Ok_inv in Hrun as (g & v & Hg & Hv & ->).
    exists v. simpl. split; [|eapply pushed_ge_1, Hv].
    apply list_lookup_insert_eq. eapply lookup_lt_Some, Hg.
  - intros dt S_intrp R_intrp randn i k g Sv Rv Hg HS HR Hdt HRv.
    eexists _, _. rewrite particle_closed, Hg.
    rewrite (pushed_Ok _ _ _ _ _ Sv Rv HS HR Hdt HRv).
    split; [reflexivity|]. simpl. split; [|apply clamp1_ge].
    apply list_lookup_insert_eq. eapply lookup_lt_Some, Hg.
  - intros Nsmpl tdim dt S_intrp R_intrp randn t k k'. apply timestep_physical.
  - intros Nsmpl tdim dt S_intrp R_intrp randn k k'. apply cell4_physical.
  - intros randn n. rewrite particle_closed. cbn [gmdist lookup list_lookup randn_calls].
    rewrite (pushed_Ok _ _ _ _ _ 1 0) by (reflexivity || lra).
    rewrite sqrt_0, clamp1_lt by lra. reflexivity.
Qed.

Lemma lower_bound_invariant_witness :
  exists v,
    gmdist (Kernel [1] [1.002] [0] [0] 1) !! 0%nat = Some v /\ 1 <= v.
Proof.
  apply (proj1 lower_bound_invariant 0.01 (fun _ => Ok 1) (fun _ => Ok 0)
               (fun _ => 0) 0%nat (Kernel [1.002] [1.002] [0] [0] 0)).
  apply (proj2 (proj2 (proj2 (proj2 lower_bound_invariant)))).
Defined.

(** ** The argument of the square root *)

Lemma particle_with_pushers dt S_intrp R_intrp randn i :
  particle_with pushers.sqrt dt S_intrp R_intrp randn i
  = particle dt S_intrp R_intrp randn i.
Proof. reflexivity. Qed.





(** ** Degenerate configurations *)

Lemma sweep_no_particles Nsmpl dt S_intrp R_intrp randn k :
  (Nsmpl <= 0)%Z -> sweep Nsmpl dt S_intrp R_intrp randn k = Ok (tt, k).
Proof.
  intros H. unfold sweep, range.
  replace (Z.to_nat Nsmpl) with 0%nat by lia. reflexivity.
Qed.

Lemma for_timestep_no_particles tdim dt S_intrp R_intrp randn c l :
  for_ l (timestep 0 tdim dt S_intrp R_intrp randn) (Kernel [] [] [] [] c)
  = Ok (tt, Kernel [] [] [] [] c).
Proof.
  induction l as [|t l IH]; [reflexivity|].
  cbn [for_]. unfold bind. rewrite timestep_sweep, sweep_no_particles by lia.
  destruct (Z.of_nat t =? _)%Z; exact IH.
Qed.

(** C7, as the spec states it, fails: with T = -1 and dt = -5 the loop
    raises nothing; it returns with the ensemble untouched. *)
Lemma no_configuration_error :
  cell4 1 (-1) (-5) (fun _ => Ok 10) (fun _ => Ok 0) (fun _ => 0)
        (Kernel [1800] [1800] [0] [0] 0)
  = Ok (tt, Kernel [1800] [1800] [0] [1800] 0).
Proof. reflexivity. Qed.

(** C7, amended. The loop checks neither T nor dt: for T <= 0 it runs no
    step and returns normally, whatever dt is, with the final dump equal
    to the initial ensemble and the mid dump as cell 2 left it. Over an
    empty ensemble the loop returns three empty dumps for every T and dt;
    the grid of cell 3, which comes first, has no maximum to take there.
    With dt = 0 the body runs and stores the particle's own Lorentz
    factor, clamped. *)
Theorem degenerate_configurations :
  (forall Nsmpl tdim dt S_intrp R_intrp randn k,
      (tdim <= 0)%Z ->
      cell4 Nsmpl tdim dt S_intrp R_intrp randn k
      = Ok (tt, Kernel (gmdist k) (gmdist_dump1 k) (gmdist_dump2 k)
                       (gmdist k) (randn_calls k)))
  /\ (forall tdim dt S_intrp R_intrp randn c,
      cell4 0 tdim dt S_intrp R_intrp randn (Kernel [] [] [] [] c)
      = Ok (tt, Kernel [] [] [] [] c))
  /\ (forall S39 R40 Kalpha chi0 d1 d2 d3 c,
      cell3 S39 R40 Kalpha chi0 (Kernel [] d1 d2 d3 c)
      = Raise ValueError_zero_size)
  /\ (forall (S_intrp R_intrp : R -> result R) randn i k g Sv Rv,
      gmdist k !! i = Some g ->
      S_intrp g = Ok Sv -> R_intrp g = Ok Rv -> 0 <= Rv ->
      particle 0 S_intrp R_intrp randn i k
      = Ok (tt, with_gmdist (<[i := clamp1 g]> (gmdist k)) (S (randn_calls k)) k)).
Proof.
  split; [|split; [|split]].
  - intros Nsmpl tdim dt S_intrp R_intrp randn k Ht.
    unfold cell4, range. replace (Z.to_nat tdim) with 0%nat by lia.
    reflexivity.
  - intros tdim dt S_intrp R_intrp randn c. unfold cell4, bind.
    now rewrite for_timestep_no_particles.
  - reflexivity.
  - intros S_intrp R_intrp randn i k g Sv Rv Hg HS HR HRv.
    rewrite particle_closed, Hg.
    rewrite (pushed_Ok _ _ _ _ _ Sv Rv HS HR (Rle_refl 0) HRv).
    rewrite sqrt_0.
    replace (g + (- Sv * 0 + sqrt Rv * (0 * randn (randn_calls k)))) with g by lra.
    reflexivity.
Qed.

Lemma degenerate_configurations_witness :
  cell4 1 (-1) (-5) (fun _ => Ok 10) (fun _ => Ok 0) (fun _ => 0)
        (Kernel [1800] [1800] [0] [0] 0)
  = Ok (tt, Kernel [1800] [1800] [0] [1800] 0).
Proof.
  apply (proj1 degenerate_configurations 1%Z (-1)%Z (-5) (fun _ => Ok 10)
               (fun _ => Ok 0) (fun _ => 0) (Kernel [1800] [1800] [0] [0] 0)).
  lia.
Defined.

(** ** Sweeps and snapshots *)

Lemma for_frame {A} (f : kernel -> kernel) (l : list A) (body : A -> nb unit) :
  (forall a k, body a (f k) = on_kernel f (body a k)) ->
  forall k, for_ l body (f k) = on_kernel f (for_ l body k).
Proof.
  intros Hbody. induction l as [|a l IH]; intros k; [reflexivity|].
  cbn [for_]. unfold bind. rewrite Hbody.
  destruct (body a k) as [[u k1]|e]; [apply IH|reflexivity].
Qed.

Lemma for_const {A B} (l : list A) (l' : list B) (m : nb unit) k :
  length l = length l' ->
  for_ l (fun _ => m) k = for_ l' (fun _ => m) k.
Proof.
  revert l' k. induction l as [|a l IH]; intros [|b l'] k Hlen;
    try discriminate; [reflexivity|].
  cbn [for_]. unfold bind.
  destruct (m k) as [[u k1]|e]; [|reflexivity].
  apply IH. now injection Hlen.
Qed.

Lemma particle_dump2 dt S_intrp R_intrp randn d i k :
  particle dt S_intrp R_intrp randn i (with_dump2 d k)
  = on_kernel (with_dump2 d) (particle dt S_intrp R_intrp randn i k).
Proof.
  rewrite !particle_closed. cbn [with_dump2 gmdist randn_calls].
  destruct (gmdist k !! i) as [g|]; [|reflexivity].
  now destruct (pushed _ _ _ _ g).
Qed.

Lemma sweep_dump2 Nsmpl dt S_intrp R_intrp randn d k :
  sweep Nsmpl dt S_intrp R_intrp randn (with_dump2 d k)
  = on_kernel (with_dump2 d) (sweep Nsmpl dt S_intrp R_intrp randn k).
Proof. apply for_frame. intros i k0. apply particle_dump2. Qed.

Lemma sweep_dumps Nsmpl dt S_intrp R_intrp randn k k' :
  sweep Nsmpl dt S_intrp R_intrp randn k = Ok (tt, k') ->
  gmdist_dump1 k' = gmdist_dump1 k /\ gmdist_dump2 k' = gmdist_dump2 k
  /\ gmdist_dump3 k' = gmdist_dump3 k.
Proof.
  apply (for_invariant
           (fun k0 => gmdist_dump1 k0 = gmdist_dump1 k
                      /\ gmdist_dump2 k0 = gmdist_dump2 k
                      /\ gmdist_dump3 k0 = gmdist_dump3 k)); [|easy].
  intros i k1 k2 _ H Hrun.
  now apply particle_Ok_inv in Hrun as (g & v & _ & _ & ->).
Qed.

Section Snapshots.

Variable Nsmpl : Z.
Variable tdim : Z.
Variable dt : R.
Variables S_intrp R_intrp : R -> result R.
Variable randn : nat -> R.

Let sweep_ := sweep Nsmpl dt S_intrp R_intrp randn.
Let timestep_ := timestep Nsmpl tdim dt S_intrp R_intrp randn.

Lemma for_timestep_off (l : list nat) k :
  (forall t, t ∈ l -> Z.of_nat t <> Z.quot tdim 2) ->
  for_ l timestep_ k = for_ l (fun _ => sweep_) k.
Proof.
  intros Hl. apply for_ext. intros t k0 Ht.
  unfold timestep_. rewrite timestep_sweep.
  destruct (Z.eqb_spec (Z.of_nat t) (Z.quot tdim 2)) as [E|_];
    [now apply Hl in Ht|].
  unfold sweep_. now destruct (sweep _ _ _ _ _ k0) as [[[] k1]|e].
Qed.

Lemma sweeps_split a b k :
  sweeps Nsmpl dt S_intrp R_intrp randn (a + b) k
  = bind (sweeps Nsmpl dt S_intrp R_intrp randn a)
         (fun _ => sweeps Nsmpl dt S_intrp R_intrp randn b) k.
Proof.
  unfold sweeps. rewrite seq_app, for_app. unfold bind.
  destruct (for_ (seq 0 a) _ k) as [[u k1]|e]; [|reflexivity].
  apply for_const. now rewrite !length_seq.
Qed.

Lemma sweeps_dump1 n k k' :
  sweeps Nsmpl dt S_intrp R_intrp randn n k = Ok (tt, k') ->
  gmdist_dump1 k' = gmdist_dump1 k.
Proof.
  apply (for_invariant (fun k0 => gmdist_dump1 k0 = gmdist_dump1 k)); [|easy].
  intros t k1 k2 _ H Hrun. apply sweep_dumps in Hrun. destruct Hrun as [-> _].
  exact H.
Qed.

(** The snapshots of the loop in terms of completed sweeps. *)
Lemma cell4_snapshots k0 kT :
  (0 < tdim)%Z ->
  sweeps Nsmpl dt S_intrp R_intrp randn (Z.to_nat tdim) k0 = Ok (tt, kT) ->
  exists kh,
    sweeps Nsmpl dt S_intrp R_intrp randn (S (Z.to_nat (Z.quot tdim 2))) k0
    = Ok (tt, kh)
    /\ cell4 Nsmpl tdim dt S_intrp R_intrp randn k0
       = Ok (tt, Kernel (gmdist kT) (gmdist_dump1 k0) (gmdist kh)
                        (gmdist kT) (randn_calls kT)).
Proof.
  intros Hpos HT.
  set (h := Z.to_nat (Z.quot tdim 2)).
  assert (Z.of_nat h = Z.quot tdim 2) as Hh.
  { unfold h. rewrite Z2Nat.id; [reflexivity|]. apply Z.quot_pos; lia. }
  assert (h < Z.to_nat tdim)%nat as Hlt.
  { apply Nat2Z.inj_lt. rewrite Hh, Z2Nat.id by lia.
    apply Z.quot_lt; lia. }
  pose proof (sweeps_dump1 _ _ _ HT) as Hd1.
  replace (Z.to_nat tdim) with (S h + (Z.to_nat tdim - S h))%nat in HT by lia.
  rewrite sweeps_split in HT.
  apply bind_Ok_inv in HT as ([] & kh & Hkh & Hrest).
  exists kh. split; [exact Hkh|].
  unfold cell4, range.
  replace (Z.to_nat tdim) with (h + S (Z.to_nat tdim - S h))%nat by lia.
  rewrite seq_app. change (0 + h)%nat with h. cbn [seq]. unfold bind at 1.
  rewrite for_app. cbn [for_]. unfold bind.
  fold timestep_.
  rewrite for_timestep_off.
  2:{ intros t Ht. apply elem_of_seq in Ht. lia. }
  replace (S h) with (h + 1)%nat in Hkh by lia.
  rewrite sweeps_split in Hkh.
  apply bind_Ok_inv in Hkh as ([] & k1 & Hk1 & Hstep).
  unfold sweeps in Hk1. fold sweep_ in Hk1. rewrite Hk1.
  unfold sweeps in Hstep. cbn [seq for_] in Hstep. unfold bind, ret in Hstep.
  fold sweep_ in Hstep.
  unfold timestep_ at 1. rewrite timestep_sweep. fold sweep_.
  destruct (sweep_ k1) as [[[] k2]|e]; [|discriminate].
  injection Hstep as ->.
  rewrite Hh, Z.eqb_refl.
  rewrite for_timestep_off.
  2:{ intros t Ht. apply elem_of_seq in Ht. lia. }
  rewrite (for_const _ (seq 0 (Z.to_nat tdim - S h))) by now rewrite !length_seq.
  unfold sweep_. rewrite (for_frame (with_dump2 (gmdist kh))).
  2:{ intros _ k. apply sweep_dump2. }
  unfold sweeps in Hrest. rewrite Hrest.
  cbn [on_kernel]. unfold save_dump3, np.copy, with_dump2.
  cbn [gmdist gmdist_dump1 gmdist_dump2 gmdist_dump3 randn_calls].
  now rewrite Hd1.
Qed.

End Snapshots.

(** C5. With T = 1000 the mid dump is the ensemble as it stands after the
    sweep of step index 500, that is after 501 completed sweeps, and the
    final dump is the ensemble after all 1000 sweeps. *)
Theorem snapshot_timing :
  forall Nsmpl dt S_intrp R_intrp randn k0 k1000,
    sweeps Nsmpl dt S_intrp R_intrp randn 1000 k0 = Ok (tt, k1000) ->
    int_tdim_half 1000 = 500%Z
    /\ exists k501,
      sweeps Nsmpl dt S_intrp R_intrp randn 501 k0 = Ok (tt, k501)
      /\ cell4 Nsmpl 1000 dt S_intrp R_intrp randn k0
         = Ok (tt, Kernel (gmdist k1000) (gmdist_dump1 k0) (gmdist k501)
                          (gmdist k1000) (randn_calls k1000)).
Proof.
  intros Nsmpl dt S_intrp R_intrp randn k0 k1000 H.
  split; [reflexivity|].
  apply (cell4_snapshots Nsmpl 1000 dt S_intrp R_intrp randn k0 k1000); [lia|].
  exact H.
Qed.

Lemma sweeps_one_particle_drift n :
  forall a d1 d2 d3 c,
    1 + 0.05 * INR n <= a ->
    sweeps 1 0.005 (fun _ => Ok 10) (fun _ => Ok 0) (fun _ => 0) n
           (Kernel [a] d1 d2 d3 c)
    = Ok (tt, Kernel [a - 0.05 * INR n] d1 d2 d3 (n + c)).
Proof.
  unfold sweeps. induction n as [|n IH]; intros a d1 d2 d3 c Ha.
  - replace (a - 0.05 * INR 0) with a by (cbn [INR]; lra). reflexivity.
  - rewrite S_INR in Ha. cbn [seq for_]. unfold bind, sweep, range.
    change (Z.to_nat 1) with 1%nat. cbn [seq for_]. unfold bind.
    pose proof (pos_INR n) as Hn.
    push_with pushed_drift_only. unfold ret.
    rewrite (for_const _ (seq 0 n)) by now rewrite !length_seq.
    fold (range 1). fold (sweep 1 0.005 (fun _ => Ok 10) (fun _ => Ok 0) (fun _ => 0)).
    rewrite IH by lra. rewrite S_INR.
    replace (n + S c)%nat with (S n + c)%nat by lia.
    replace (a - 0.05 - 0.05 * INR n) with (a - 0.05 * (INR n + 1)) by lra.
    reflexivity.
Qed.

Lemma snapshot_timing_witness :
  let k0 := Kernel [1800] [1800] [0] [0] 0 in
  let k1000 := Kernel [1800 - 0.05 * INR 1000] [1800] [0] [0] (1000 + 0) in
  int_tdim_half 1000 = 500%Z
  /\ exists k501,
    sweeps 1 0.005 (fun _ => Ok 10) (fun _ => Ok 0) (fun _ => 0) 501 k0
    = Ok (tt, k501)
    /\ cell4 1 1000 0.005 (fun _ => Ok 10) (fun _ => Ok 0) (fun _ => 0) k0
       = Ok (tt, Kernel (gmdist k1000) (gmdist_dump1 k0) (gmdist k501)
                        (gmdist k1000) (randn_calls k1000)).
Proof.
  intros k0 k1000.
  apply (snapshot_timing 1%Z 0.005 (fun _ => Ok 10) (fun _ => Ok 0)
                         (fun _ => 0) k0 k1000).
  apply sweeps_one_particle_drift.
  change (INR 1000) with (INR (Z.to_nat 1000)). rewrite INR_IZR_INZ, Z2Nat.id by lia.
  lra.
Defined.

(** ** The draws a run consumes *)

Lemma particle_randn_ext dt S_intrp R_intrp r1 r2 i k :
  r1 (randn_calls k) = r2 (randn_calls k) ->
  particle dt S_intrp R_intrp r1 i k = particle dt S_intrp R_intrp r2 i k.
Proof. intros H. rewrite !particle_closed. now rewrite H. Qed.

Lemma particle_calls dt S_intrp R_intrp randn i k k' :
  particle dt S_intrp R_intrp randn i k = Ok (tt, k') ->
  randn_calls k' = S (randn_calls k).
Proof. intros H. now apply particle_Ok_inv in H as (g & v & _ & _ & ->). Qed.

Lemma for_particle_calls dt S_intrp R_intrp randn (l : list nat) :
  forall k k',
    for_ l (particle dt S_intrp R_intrp randn) k = Ok (tt, k') ->
    randn_calls k' = (randn_calls k + length l)%nat.
Proof.
  induction l as [|i l IH]; intros k k' H; cbn [for_] in H.
  - injection H as <-. simpl. lia.
  - apply bind_Ok_inv in H as ([] & k1 & H1 & H2).
    apply IH in H2. apply particle_calls in H1. simpl. lia.
Qed.

Lemma for_particle_randn_ext dt S_intrp R_intrp r1 r2 (l : list nat) :
  forall k,
    (forall j, (randn_calls k <= j < randn_calls k + length l)%nat -> r1 j = r2 j) ->
    for_ l (particle dt S_intrp R_intrp r1) k
    = for_ l (particle dt S_intrp R_intrp r2) k.
Proof.
  induction l as [|i l IH]; intros k H; [reflexivity|].
  cbn [for_]. unfold bind.
  rewrite (particle_randn_ext _ _ _ r1 r2) by (apply H; simpl; lia).
  destruct (particle _ _ _ r2 i k) as [[[] k1]|e] eqn:H1; [|reflexivity].
  apply IH. intros j Hj. apply particle_calls in H1. apply H. simpl. lia.
Qed.

Lemma timestep_calls Nsmpl tdim dt S_intrp R_intrp randn t k k' :
  timestep Nsmpl tdim dt S_intrp R_intrp randn t k = Ok (tt, k') ->
  randn_calls k' = (randn_calls k + Z.to_nat Nsmpl)%nat.
Proof.
  rewrite timestep_sweep.
  destruct (sweep _ _ _ _ _ k) as [[[] k1]|e] eqn:Hs; [|discriminate].
  intros [= <-]. apply for_particle_calls in Hs.
  unfold range in Hs. rewrite length_seq in Hs.
  now destruct (Z.of_nat t =? _)%Z.
Qed.

Lemma timestep_randn_ext Nsmpl tdim dt S_intrp R_intrp r1 r2 t k :
  (forall j, (randn_calls k <= j < randn_calls k + Z.to_nat Nsmpl)%nat -> r1 j = r2 j) ->
  timestep Nsmpl tdim dt S_intrp R_intrp r1 t k
  = timestep Nsmpl tdim dt S_intrp R_intrp r2 t k.
Proof.
  intros H. rewrite !timestep_sweep. unfold sweep.
  rewrite (for_particle_randn_ext _ _ _ r1 r2); [reflexivity|].
  unfold range. now rewrite length_seq.
Qed.

Lemma for_timestep_randn_ext Nsmpl tdim dt S_intrp R_intrp r1 r2 (l : list nat) :
  forall k,
    (forall j, (randn_calls k <= j < randn_calls k + length l * Z.to_nat Nsmpl)%nat ->
               r1 j = r2 j) ->
    for_ l (timestep Nsmpl tdim dt S_intrp R_intrp r1) k
    = for_ l (timestep Nsmpl tdim dt S_intrp R_intrp r2) k.
Proof.
  induction l as [|t l IH]; intros k H; [reflexivity|].
  cbn [for_]. unfold bind.
  rewrite (timestep_randn_ext _ _ _ _ _ r1 r2) by (intros j Hj; apply H; simpl; lia).
  destruct (timestep _ _ _ _ _ r2 t k) as [[[] k1]|e] eqn:H1; [|reflexivity].
  apply IH. intros j Hj. apply timestep_calls in H1. apply H. simpl. lia.
Qed.

Lemma cell4_randn_ext Nsmpl tdim dt S_intrp R_intrp r1 r2 k :
  (forall j, (randn_calls k <= j
              < randn_calls k + Z.to_nat tdim * Z.to_nat Nsmpl)%nat ->
             r1 j = r2 j) ->
  cell4 Nsmpl tdim dt S_intrp R_intrp r1 k
  = cell4 Nsmpl tdim dt S_intrp R_intrp r2 k.
Proof.
  intros H. unfold cell4, bind.
  rewrite (for_timestep_randn_ext _ _ _ _ _ r1 r2); [reflexivity|].
  unfold range. now rewrite length_seq.
Qed.

Lemma cell2_normal_ext Nsmpl tmax tdim n1 n2 k :
  (forall j, (j < Z.to_nat Nsmpl)%nat -> n1 j = n2 j) ->
  cell2 Nsmpl tmax tdim n1 k = cell2 Nsmpl tmax tdim n2 k.
Proof.
  intros H. unfold cell2.
  replace (map (fun i => 1800 + 90 * n1 i) (range Nsmpl))
    with (map (fun i => 1800 + 90 * n2 i) (range Nsmpl)); [reflexivity|].
  apply map_ext_in. intros j Hj. apply in_seq in Hj. rewrite H by lia.
  reflexivity.
Qed.

Lemma cell2_calls Nsmpl tmax tdim standard_normal kinit dt k0 :
  cell2 Nsmpl tmax tdim standard_normal kinit = Ok (dt, k0) ->
  randn_calls k0 = randn_calls kinit.
Proof.
  unfold cell2. destruct (Nsmpl <? 0)%Z; [discriminate|].
  destruct (tdim =? 0)%Z; [discriminate|]. now intros [= _ <-].
Qed.

Lemma cell3_kernel S39 R40 Kalpha chi0 k intrp k' :
  cell3 S39 R40 Kalpha chi0 k = Ok (intrp, k') -> k' = k.
Proof.
  unfold cell3. destruct (np.max (gmdist k)) as [m|e]; [|discriminate].
  cbv zeta. generalize (np.linspace 1 (2 * m) 200). intros gmlst.
  now intros [= _ <-].
Qed.

(** C6. Two runs of the loop from the same kernel state, with the same
    T, dt and interpolants, whose generators deliver the same draws over
    the T * N calls a run makes, end alike: the same three dumps and
    ensemble, or the same exception. So do two runs of the whole
    notebook whose two generators deliver the same N initial normals and
    the same T * N draws. *)
Theorem same_draws_same_run :
  (forall Nsmpl tdim dt S_intrp R_intrp r1 r2 k,
      (forall j, (randn_calls k <= j
                  < randn_calls k + Z.to_nat tdim * Z.to_nat Nsmpl)%nat ->
                 r1 j = r2 j) ->
      cell4 Nsmpl tdim dt S_intrp R_intrp r1 k
      = cell4 Nsmpl tdim dt S_intrp R_intrp r2 k)
  /\ (forall S39 R40 Kalpha Nsmpl chi0 tmax tdim n1 n2 r1 r2,
      (forall j, (j < Z.to_nat Nsmpl)%nat -> n1 j = n2 j) ->
      (forall j, (j < Z.to_nat tdim * Z.to_nat Nsmpl)%nat -> r1 j = r2 j) ->
      notebook S39 R40 Kalpha Nsmpl chi0 tmax tdim n1 r1
      = notebook S39 R40 Kalpha Nsmpl chi0 tmax tdim n2 r2).
Proof.
  split.
  - intros Nsmpl tdim dt S_intrp R_intrp r1 r2 k. apply cell4_randn_ext.
  - intros S39 R40 Kalpha Nsmpl chi0 tmax tdim n1 n2 r1 r2 Hn Hr.
    unfold notebook, bind.
    rewrite (cell2_normal_ext _ _ _ n1 n2) by exact Hn.
    destruct (cell2 _ _ _ n2 _) as [[dt k0]|e] eqn:H2; [|reflexivity].
    apply cell2_calls in H2. cbn [randn_calls] in H2.
    destruct (cell3 _ _ _ _ k0) as [[intrp k0']|e] eqn:H3; [|reflexivity].
    apply cell3_kernel in H3 as ->.
    rewrite (cell4_randn_ext _ _ _ _ _ r1 r2); [reflexivity|].
    rewrite H2. intros j Hj. apply Hr. lia.
Qed.

Lemma same_draws_same_run_witness :
  cell4 3 2 0.005 (fun _ => Ok 10) (fun _ => Ok 0)
        (fun j => if (j <? 6)%nat then 0 else 1)
        (Kernel [1800; 1800; 1800] [1800; 1800; 1800] [0; 0; 0] [0; 0; 0] 0)
  = cell4 3 2 0.005 (fun _ => Ok 10) (fun _ => Ok 0) (fun _ => 0)
          (Kernel [1800; 1800; 1800] [1800; 1800; 1800] [0; 0; 0] [0; 0; 0] 0).
Proof.
  apply (proj1 same_draws_same_run).
  cbn [randn_calls]. change (Z.to_nat 2 * Z.to_nat 3)%nat with 6%nat.
  intros j Hj. destruct (Nat.ltb_spec j 6) as [_|Hge]; [reflexivity|lia].
Defined.

(** ** The order of the particles within a sweep *)

Section Order.

Variable dt : R.
Variables S_intrp R_intrp : R -> result R.

Lemma pass_result_intro (l : list nat) r :
  NoDup l ->
  forall k k',
    for_ l (particle dt S_intrp R_intrp r) k = Ok (tt, k') ->
    pass_result dt S_intrp R_intrp l r k k'.
Proof.
  induction l as [|a l IH]; intros Hnd k k' Hrun; cbn [for_] in Hrun.
  - injection Hrun as <-. unfold pass_result, with_gmdist. cbn [length].
    rewrite Nat.add_0_r. destruct k; repeat split; try easy.
  - apply NoDup_cons in Hnd as [Ha Hnd].
    apply bind_Ok_inv in Hrun as ([] & k1 & H1 & Hrest).
    apply particle_Ok_inv in H1 as (g & v & Hg & Hv & ->).
    apply (IH Hnd) in Hrest as (Hk' & Hlen & Hout & Hin).
    unfold with_gmdist in *. cbn [gmdist gmdist_dump1 gmdist_dump2 gmdist_dump3
                                  randn_calls] in *.
    rewrite length_insert in Hlen.
    unfold pass_result, with_gmdist. repeat split.
    + rewrite Hk' at 1. cbn [length]. f_equal. lia.
    + exact Hlen.
    + intros i Hi. apply not_elem_of_cons in Hi as [Hia Hi].
      rewrite (Hout i Hi). now apply list_lookup_insert_ne.
    + intros [|j] i Hj; cbn in Hj.
      * injection Hj as <-. exists g, v. rewrite Nat.add_0_r.
        repeat split; [exact Hg|exact Hv|].
        rewrite (Hout a Ha). apply list_lookup_insert_eq.
        eapply lookup_lt_Some, Hg.
      * destruct (Hin j i Hj) as (g' & v' & Hg' & Hv' & Hk).
        assert (a <> i) as Hai.
        { intros ->. apply Ha. eapply list_elem_of_lookup_2, Hj. }
        exists g', v'. rewrite list_lookup_insert_ne in Hg' by exact Hai.
        replace (randn_calls k + S j)%nat with (S (randn_calls k) + j)%nat by lia.
        now repeat split.
Qed.

Lemma pass_result_elim (l : list nat) r :
  NoDup l ->
  forall k k',
    pass_result dt S_intrp R_intrp l r k k' ->
    for_ l (particle dt S_intrp R_intrp r) k = Ok (tt, k').
Proof.
  induction l as [|a l IH]; intros Hnd k k' (Hk' & Hlen & Hout & Hin); cbn [for_].
  - unfold ret. f_equal. f_equal. rewrite Hk'. unfold with_gmdist.
    cbn [length]. rewrite Nat.add_0_r.
    replace (gmdist k') with (gmdist k); [now destruct k|].
    apply list_eq. intros i. symmetry. apply Hout. apply not_elem_of_nil.
  - apply NoDup_cons in Hnd as [Ha Hnd].
    destruct (Hin 0%nat a eq_refl) as (g & v & Hg & Hv & Hka).
    rewrite Nat.add_0_r in Hv.
    unfold bind. rewrite particle_closed, Hg, Hv.
    apply (IH Hnd). unfold pass_result, with_gmdist in *.
    cbn [gmdist gmdist_dump1 gmdist_dump2 gmdist_dump3 randn_calls length] in *.
    rewrite length_insert. repeat split.
    + rewrite Hk' at 1. f_equal. lia.
    + exact Hlen.
    + intros i Hi. destruct (decide (a = i)) as [<-|Hai].
      * rewrite Hka. symmetry. apply list_lookup_insert_eq.
        eapply lookup_lt_Some, Hg.
      * rewrite list_lookup_insert_ne by exact Hai. apply Hout.
        apply not_elem_of_cons. split; [congruence|exact Hi].
    + intros j i Hj. destruct (Hin (S j) i Hj) as (g' & v' & Hg' & Hv' & Hk).
      assert (a <> i) as Hai.
      { intros ->. apply Ha. eapply list_elem_of_lookup_2, Hj. }
      exists g', v'. rewrite list_lookup_insert_ne by exact Hai.
      replace (S (randn_calls k) + j)%nat with (randn_calls k + S j)%nat by lia.
      now repeat split.
Qed.

Lemma pass_permuted (p q : list nat) r_p r_q k k' :
  NoDup p -> p ≡ₚ q ->
  (forall j j' i, p !! j = Some i -> q !! j' = Some i ->
                  r_p (randn_calls k + j)%nat = r_q (randn_calls k + j')%nat) ->
  for_ p (particle dt S_intrp R_intrp r_p) k = Ok (tt, k') ->
  for_ q (particle dt S_intrp R_intrp r_q) k = Ok (tt, k').
Proof.
  intros Hnd Hpq Hr Hrun.
  apply (pass_result_intro p r_p Hnd) in Hrun as (Hk' & Hlen & Hout & Hin).
  apply pass_result_elim; [now rewrite <- Hpq|].
  repeat split.
  - now rewrite <- Hpq.
  - exact Hlen.
  - intros i Hi. apply Hout. now rewrite Hpq.
  - intros j' i Hj'.
    assert (i ∈ p) as Hi by (rewrite Hpq; eapply list_elem_of_lookup_2, Hj').
    apply list_elem_of_lookup_1 in Hi as (j & Hj).
    destruct (Hin j i Hj) as (g & v & Hg & Hv & Hk).
    exists g, v. rewrite <- (Hr j j' i Hj Hj'). now repeat split.
Qed.

End Order.

Lemma draws_for_lookup (p : list nat) c randn j i :
  p !! j = Some i -> draws_for p c randn (c + j)%nat = randn (c + i)%nat.
Proof.
  intros Hj. unfold draws_for.
  replace (c + j - c)%nat with j by lia.
  now rewrite nth_lookup, Hj.
Qed.

(** C9, amended. Within a timestep the particles may be passed in any
    order [p], a permutation of range(Nsmpl), provided every particle is
    handed the draw it receives in the notebook's order: the pass then
    succeeds exactly when the notebook's sweep does, and leaves the same
    ensemble and kernel. *)
Theorem particle_order_irrelevant :
  forall Nsmpl dt S_intrp R_intrp randn (p : list nat) k k',
    p ≡ₚ range Nsmpl ->
    for_ p (particle dt S_intrp R_intrp (draws_for p (randn_calls k) randn)) k
    = Ok (tt, k')
    <-> sweep Nsmpl dt S_intrp R_intrp randn k = Ok (tt, k').
Proof.
  intros Nsmpl dt S_intrp R_intrp randn p k k' Hp. unfold sweep, range in *.
  assert (NoDup p) as Hnd by (rewrite Hp; apply NoDup_seq).
  split; intros Hrun.
  - eapply pass_permuted; [exact Hnd|exact Hp| |exact Hrun].
    intros j j' i Hj Hj'. apply lookup_seq in Hj' as [-> _].
    now rewrite (draws_for_lookup _ _ _ _ _ Hj).
  - eapply pass_permuted; [apply NoDup_seq|symmetry; exact Hp| |exact Hrun].
    intros j j' i Hj Hj'. apply lookup_seq in Hj as [-> _].
    now rewrite (draws_for_lookup _ _ _ _ _ Hj').
Qed.

(** A sweep with no drift, unit diffusion and unit timestep, the n-th
    draw being n + 0.5. *)
Lemma pushed_unit_kick z g :
  1 <= g + z -> pushed 1 (fun _ => Ok 0) (fun _ => Ok 1) z g = Ok (g + z).
Proof.
  intros H. rewrite (pushed_Ok _ _ _ _ _ 0 1) by (reflexivity || lra).
  rewrite sqrt_1, clamp1_id by lra. f_equal. lra.
Qed.

Ltac kick :=
  rewrite particle_closed; cbn [gmdist randn_calls lookup list_lookup];
  rewrite pushed_unit_kick by (cbn [INR]; lra);
  unfold with_gmdist;
  cbn [gmdist gmdist_dump1 gmdist_dump2 gmdist_dump3 randn_calls
       insert list_insert].

Lemma sweep_unit_kicks :
  sweep 3 1 (fun _ => Ok 0) (fun _ => Ok 1) (fun n => INR n + 0.5)
        (Kernel [10; 20; 30] [] [] [] 0)
  = Ok (tt, Kernel [10.5; 21.5; 32.5] [] [] [] 3).
Proof.
  unfold sweep, range. change (Z.to_nat 3) with 3%nat. cbn [seq for_].
  unfold bind. do 3 kick. unfold ret. cbn [INR].
  replace (10 + (0 + 0.5)) with 10.5 by lra.
  replace (20 + (1 + 0.5)) with 21.5 by lra.
  replace (30 + (1 + 1 + 0.5)) with 32.5 by lra.
  reflexivity.
Qed.

Lemma pass_201_unit_kicks :
  for_ [2; 0; 1]%nat
       (particle 1 (fun _ => Ok 0) (fun _ => Ok 1) (fun n => INR n + 0.5))
       (Kernel [10; 20; 30] [] [] [] 0)
  = Ok (tt, Kernel [11.5; 22.5; 30.5] [] [] [] 3).
Proof.
  cbn [for_]. unfold bind. do 3 kick. unfold ret. cbn [INR].
  replace (10 + (1 + 0.5)) with 11.5 by lra.
  replace (20 + (1 + 1 + 0.5)) with 22.5 by lra.
  replace (30 + (0 + 0.5)) with 30.5 by lra.
  reflexivity.
Qed.

(** C9, as the spec states it, fails: the body takes its draw from the one
    generator of the run, so the order of the pass decides which draw a
    particle receives. From [10, 20, 30] with draws 0.5, 1.5, 2.5 the
    notebook's order leaves [10.5, 21.5, 32.5]; the order 2, 0, 1 on the
    same draws leaves [11.5, 22.5, 30.5]. *)
Lemma pass_order_changes_ensemble :
  let k := Kernel [10; 20; 30] [] [] [] 0 in
  let randn := fun n => INR n + 0.5 in
  exists k1 k2,
    sweep 3 1 (fun _ => Ok 0) (fun _ => Ok 1) randn k = Ok (tt, k1)
    /\ for_ [2; 0; 1]%nat (particle 1 (fun _ => Ok 0) (fun _ => Ok 1) randn) k
       = Ok (tt, k2)
    /\ gmdist k1 = [10.5; 21.5; 32.5]
    /\ gmdist k2 = [11.5; 22.5; 30.5]
    /\ gmdist k1 <> gmdist k2.
Proof.
  intros k randn.
  exists (Kernel [10.5; 21.5; 32.5] [] [] [] 3),
         (Kernel [11.5; 22.5; 30.5] [] [] [] 3).
  split; [apply sweep_unit_kicks|]. split; [apply pass_201_unit_kicks|].
  split; [reflexivity|]. split; [reflexivity|].
  cbn [gmdist]. intros [= H _ _]. lra.
Qed.

Lemma particle_order_irrelevant_witness :
  let randn := fun n => INR n + 0.5 in
  for_ [2; 0; 1]%nat
       (particle 1 (fun _ => Ok 0) (fun _ => Ok 1)
                 (draws_for [2; 0; 1]%nat 0 randn))
       (Kernel [10; 20; 30] [] [] [] 0)
  = Ok (tt, Kernel [10.5; 21.5; 32.5] [] [] [] 3).
Proof.
  intros randn.
  apply (proj2 (particle_order_irrelevant 3 1 (fun _ => Ok 0)
                  (fun _ => Ok 1) randn [2; 0; 1]%nat
                  (Kernel [10; 20; 30] [] [] [] 0)
                  (Kernel [10.5; 21.5; 32.5] [] [] [] 3)
                  (perm_trans (perm_swap 0%nat 2%nat [1%nat])
                              (perm_skip 0%nat (perm_swap 1%nat 2%nat []))))).
  apply sweep_unit_kicks.
Defined.

(** ** The grid and the interpolants *)

Lemma linspace_length a b n : length (np.linspace a b n) = n.
Proof.
  destruct n as [|[|d]]; [reflexivity|reflexivity|].
  unfold np.linspace. rewrite length_app, length_map, length_seq. simpl. lia.
Qed.

Lemma linspace_nth a b n i :
  (2 <= n)%nat -> (i < n)%nat ->
  nth i (np.linspace a b n) 0 = a + INR i * ((b - a) / INR (n - 1)).
Proof.
  intros Hn Hi. destruct n as [|[|d]]; [lia|lia|].
  unfold np.linspace. replace (S (S d) - 1)%nat with (S d) by lia.
  assert (INR (S d) <> 0) as Hd by (apply not_0_INR; lia).
  destruct (decide (i < S d)%nat) as [Hlt|Hge].
  - rewrite app_nth1 by now rewrite length_map, length_seq.
    rewrite nth_lookup, list_lookup_fmap, lookup_seq_lt by exact Hlt.
    simpl. lra.
  - replace i with (S d) by lia.
    rewrite app_nth2 by (rewrite length_map, length_seq; lia).
    rewrite length_map, length_seq, Nat.sub_diag. cbn [nth]. field. exact Hd.
Qed.

Lemma searchsorted_spec (xs : list R) q :
  forall n,
    (n <= length xs)%nat ->
    (forall i, (i < n)%nat -> nth i xs 0 < q) ->
    ((n < length xs)%nat -> q <= nth n xs 0) ->
    interpolate.searchsorted xs q = n.
Proof.
  induction xs as [|x0 xs IH]; intros n Hn Hlo Hhi; cbn [length] in Hn.
  - cbn. lia.
  - cbn [interpolate.searchsorted]. destruct n as [|n].
    + destruct (Rlt_dec x0 q) as [Hlt|_]; [|reflexivity].
      assert (q <= x0) by (apply (Hhi ltac:(cbn; lia))). lra.
    + destruct (Rlt_dec x0 q) as [_|Hge].
      * f_equal. apply IH; [lia| |].
        -- intros i Hi. apply (Hlo (S i)). lia.
        -- intros Hlt. apply Hhi. cbn. lia.
      * exfalso. apply Hge. apply (Hlo 0%nat). lia.
Qed.

Section Grid.

(** An increasing grid [xs] of equally spaced nodes with values [ys]. *)
Variables (xs ys : list R) (a h : R) (N : nat).
Hypothesis HN : (2 <= N)%nat.
Hypothesis Hlen : length xs = N.
Hypothesis Hh : 0 < h.
Hypothesis Hxs : forall i, (i < N)%nat -> nth i xs 0 = a + INR i * h.

Let f := interpolate.interp1d xs ys.

Lemma grid_increasing i j :
  (i < j)%nat -> (j < N)%nat -> nth i xs 0 < nth j xs 0.
Proof using HN Hlen Hh Hxs.
  intros Hij Hj. rewrite !Hxs by lia.
  apply lt_INR in Hij. nra.
Qed.

Lemma grid_monotone i j :
  (i <= j)%nat -> (j < N)%nat -> nth i xs 0 <= nth j xs 0.
Proof using HN Hlen Hh Hxs.
  intros Hij Hj. rewrite !Hxs by lia.
  apply le_INR in Hij. nra.
Qed.

(** Between the nodes [i] and [i+1], left end excluded, the interpolant
    follows the chord of that segment. *)
Lemma call_linear_segment i q :
  (S i < N)%nat -> nth i xs 0 < q <= nth (S i) xs 0 ->
  interpolate.call_linear f q =
  (nth (S i) ys 0 - nth i ys 0) / (nth (S i) xs 0 - nth i xs 0) * (q - nth i xs 0)
  + nth i ys 0.
Proof using HN Hlen Hh Hxs.
  intros Hi [Hlo Hhi]. unfold interpolate.call_linear, f.
  cbn [interpolate.x interpolate.y].
  rewrite (searchsorted_spec xs q (S i)).
  - unfold interpolate.clip. rewrite Hlen.
    replace (Nat.min (Nat.max (S i) 1) (N - 1)) with (S i) by lia.
    replace (S i - 1)%nat with i by lia. reflexivity.
  - lia.
  - intros j Hj. pose proof (grid_monotone j i ltac:(lia) ltac:(lia)). lra.
  - intros _. exact Hhi.
Qed.

(** At or below the first node the first segment is used. *)
Lemma call_linear_first q :
  q <= nth 0 xs 0 ->
  interpolate.call_linear f q =
  (nth 1 ys 0 - nth 0 ys 0) / (nth 1 xs 0 - nth 0 xs 0) * (q - nth 0 xs 0)
  + nth 0 ys 0.
Proof using HN Hlen.
  intros Hq. unfold interpolate.call_linear, f.
  cbn [interpolate.x interpolate.y].
  rewrite (searchsorted_spec xs q 0).
  - unfold interpolate.clip. rewrite Hlen.
    replace (Nat.min (Nat.max 0 1) (N - 1)) with 1%nat by lia. reflexivity.
  - lia.
  - intros j Hj. lia.
  - intros _. exact Hq.
Qed.

Lemma call_linear_node i :
  (i < N)%nat -> interpolate.call_linear f (nth i xs 0) = nth i ys 0.
Proof using HN Hlen Hh Hxs.
  intros Hi. destruct i as [|i].
  - rewrite call_linear_first by lra. lra.
  - pose proof (grid_increasing i (S i) ltac:(lia) Hi) as Hinc.
    rewrite (call_linear_segment i); [field; lra | exact Hi | lra].
Qed.

Lemma call_linear_piece i q :
  (S i < N)%nat -> nth i xs 0 <= q <= nth (S i) xs 0 ->
  interpolate.call_linear f q =
  nth i ys 0
  + (nth (S i) ys 0 - nth i ys 0) / (nth (S i) xs 0 - nth i xs 0) * (q - nth i xs 0).
Proof using HN Hlen Hh Hxs.
  intros Hi [Hlo Hhi]. destruct (Req_dec q (nth i xs 0)) as [->|Hne].
  - rewrite call_linear_node by lia. lra.
  - rewrite (call_linear_segment i); [lra | exact Hi | lra].
Qed.

Lemma call_in_range q :
  nth 0 xs 0 <= q <= nth (N - 1) xs 0 ->
  interpolate.call f q = Ok (interpolate.call_linear f q).
Proof using Hlen.
  intros [Hlo Hhi]. unfold interpolate.call, f. cbn [interpolate.x]. rewrite Hlen.
  destruct (Rlt_dec q _) as [H|_]; [lra|].
  destruct (Rlt_dec _ q) as [H|_]; [lra|reflexivity].
Qed.

Lemma call_below q :
  q < nth 0 xs 0 -> interpolate.call f q = Raise ValueError_below.
Proof using Type.
  intros Hq. unfold interpolate.call, f. cbn [interpolate.x].
  destruct (Rlt_dec q _) as [_|H]; [reflexivity|lra].
Qed.

Lemma call_above q :
  nth 0 xs 0 <= q -> nth (N - 1) xs 0 < q ->
  interpolate.call f q = Raise ValueError_above.
Proof using Hlen.
  intros Hlo Hq. unfold interpolate.call, f. cbn [interpolate.x]. rewrite Hlen.
  destruct (Rlt_dec q _) as [H|_]; [lra|].
  destruct (Rlt_dec _ q) as [_|H]; [reflexivity|lra].
Qed.

End Grid.

Lemma INR_199 : INR 199 = 199.
Proof. rewrite INR_IZR_INZ. reflexivity. Qed.

Lemma gmlst_nth m i :
  (i < 200)%nat ->
  nth i (np.linspace 1 (2 * m) 200) 0 = 1 + INR i * ((2 * m - 1) / 199).
Proof.
  intros Hi. rewrite linspace_nth by lia.
  change (200 - 1)%nat with 199%nat. now rewrite INR_199.
Qed.

Lemma gmlst_first m : nth 0 (np.linspace 1 (2 * m) 200) 0 = 1.
Proof. rewrite gmlst_nth by lia. cbn [INR]. lra. Qed.

Lemma gmlst_last m : nth 199 (np.linspace 1 (2 * m) 200) 0 = 2 * m.
Proof. rewrite gmlst_nth by lia. rewrite INR_199. field. Qed.

Lemma nth_map_lt (g : R -> R) (l : list R) i :
  (i < length l)%nat -> nth i (map g l) 0 = g (nth i l 0).
Proof.
  intros Hi. rewrite !nth_lookup, list_lookup_fmap.
  destruct (lookup_lt_is_Some_2 l i Hi) as [v ->]. reflexivity.
Qed.

Lemma cell3_closed S39 R40 Kalpha chi0 k m :
  np.max (gmdist k) = Ok m ->
  cell3 S39 R40 Kalpha chi0 k =
  let gmlst := np.linspace 1 (2 * m) 200 in
  Ok ((interpolate.interp1d gmlst (map (fun gm => S39 (gm / 1800 * chi0) Kalpha) gmlst),
       interpolate.interp1d gmlst (map (fun gm => R40 (gm / 1800 * chi0) gm Kalpha) gmlst)),
      k).
Proof. intros H. unfold cell3. now rewrite H. Qed.

(** The grid and the interpolants cell 3 builds once [np.max] has
    returned [m]. *)
Lemma cell3_grid :
  forall S39 R40 Kalpha chi0 k m,
    np.max (gmdist k) = Ok m -> 1 / 2 < m ->
    exists gmlst S_lst R_lst,
      cell3 S39 R40 Kalpha chi0 k
      = Ok ((interpolate.interp1d gmlst S_lst, interpolate.interp1d gmlst R_lst), k)
      /\ length gmlst = 200%nat
      /\ (forall i, (i < 200)%nat ->
            nth i gmlst 0 = 1 + INR i * ((2 * m - 1) / 199))
      /\ nth 0 gmlst 0 = 1
      /\ nth 199 gmlst 0 = 2 * m
      /\ (forall i, (i < 200)%nat ->
            nth i S_lst 0 = S39 (nth i gmlst 0 / 1800 * chi0) Kalpha
            /\ nth i R_lst 0 = R40 (nth i gmlst 0 / 1800 * chi0) (nth i gmlst 0) Kalpha)
      /\ (forall i q, (i < 199)%nat ->
            nth i gmlst 0 <= q <= nth (S i) gmlst 0 ->
            interpolate.call (interpolate.interp1d gmlst S_lst) q
            = Ok (nth i S_lst 0
                  + (nth (S i) S_lst 0 - nth i S_lst 0)
                    / (nth (S i) gmlst 0 - nth i gmlst 0) * (q - nth i gmlst 0))
            /\ interpolate.call (interpolate.interp1d gmlst R_lst) q
               = Ok (nth i R_lst 0
                     + (nth (S i) R_lst 0 - nth i R_lst 0)
                       / (nth (S i) gmlst 0 - nth i gmlst 0) * (q - nth i gmlst 0)))
      /\ (forall i, (i < 200)%nat ->
            interpolate.call (interpolate.interp1d gmlst S_lst) (nth i gmlst 0)
            = Ok (nth i S_lst 0)
            /\ interpolate.call (interpolate.interp1d gmlst R_lst) (nth i gmlst 0)
               = Ok (nth i R_lst 0)).
Proof.
  intros S39 R40 Kalpha chi0 k m Hmax Hm.
  set (gmlst := np.linspace 1 (2 * m) 200).
  assert (length gmlst = 200%nat) as Hlen by apply linspace_length.
  assert (0 < (2 * m - 1) / 199) as Hh by (apply Rdiv_lt_0_compat; lra).
  pose proof (gmlst_nth m) as Hxs. fold gmlst in Hxs.
  assert (forall i, (i < 200)%nat -> nth 0 gmlst 0 <= nth i gmlst 0 <= nth (200 - 1) gmlst 0)
    as Hrange.
  { intros i Hi. split;
      apply (grid_monotone gmlst 1 _ 200 ltac:(lia) Hlen Hh Hxs); lia. }
  eexists gmlst, _, _. split; [apply (cell3_closed _ _ _ _ _ _ Hmax)|].
  split; [exact Hlen|]. split; [exact Hxs|].
  split; [apply gmlst_first|]. split; [apply gmlst_last|].
  split; [|split].
  - intros i Hi. split; apply nth_map_lt; rewrite linspace_length; exact Hi.
  - intros i q Hi Hq.
    assert (nth 0 gmlst 0 <= q <= nth (200 - 1) gmlst 0) as Hin.
    { pose proof (Hrange i ltac:(lia)). pose proof (Hrange (S i) ltac:(lia)). lra. }
    split; rewrite (call_in_range gmlst _ 200 Hlen) by exact Hin; f_equal;
      apply (call_linear_piece gmlst _ 1 _ 200 ltac:(lia) Hlen Hh Hxs); (lia || exact Hq).
  - intros i Hi.
    split; rewrite (call_in_range gmlst _ 200 Hlen) by (apply Hrange; exact Hi); f_equal;
      apply (call_linear_node gmlst _ 1 _ 200 ltac:(lia) Hlen Hh Hxs); exact Hi.
Qed.

(** ** Queries outside the grid *)

Lemma for_abort {A} (l1 l2 : list A) (a : A) (body : A -> nb unit) k k1 e :
  for_ l1 body k = Ok (tt, k1) -> body a k1 = Raise e ->
  for_ (l1 ++ a :: l2) body k = Raise e.
Proof.
  intros H1 Ha. rewrite for_app. unfold bind. rewrite H1.
  cbn [for_]. unfold bind. now rewrite Ha.
Qed.

Lemma particle_raise dt (S_intrp R_intrp : R -> result R) randn i k g e :
  gmdist k !! i = Some g -> S_intrp g = Raise e ->
  particle dt S_intrp R_intrp randn i k = Raise e.
Proof.
  intros Hg HS. rewrite particle_closed, Hg. unfold pushed. now rewrite HS.
Qed.

Lemma seq_split_at n i :
  (i < n)%nat -> seq 0 n = seq 0 i ++ i :: seq (S i) (n - S i).
Proof.
  intros Hi. replace n with (i + S (n - S i))%nat at 1 by lia.
  now rewrite seq_app.
Qed.

(** A failing query of the drift interpolant ends the loop with the
    interpolant's exception. *)
Lemma cell4_abort Nsmpl tdim dt (S_intrp R_intrp : R -> result R) randn
    t i k0 k1 k2 g e :
  (t < Z.to_nat tdim)%nat -> (i < Z.to_nat Nsmpl)%nat ->
  for_ (seq 0 t) (timestep Nsmpl tdim dt S_intrp R_intrp randn) k0 = Ok (tt, k1) ->
  for_ (seq 0 i) (particle dt S_intrp R_intrp randn) k1 = Ok (tt, k2) ->
  gmdist k2 !! i = Some g ->
  S_intrp g = Raise e ->
  cell4 Nsmpl tdim dt S_intrp R_intrp randn k0 = Raise e.
Proof.
  intros Ht Hi Hsteps Hpass Hg HS.
  unfold cell4, range. apply bind_Raise.
  rewrite (seq_split_at _ t Ht).
  apply (for_abort _ _ _ _ _ k1); [exact Hsteps|].
  unfold timestep. apply bind_Raise. unfold range.
  rewrite (seq_split_at _ i Hi).
  apply (for_abort _ _ _ _ _ k2); [exact Hpass|].
  now apply (particle_raise _ _ _ _ _ _ g).
Qed.

(** C4. Over a grid from 1 up to twice the maximum of the initial
    ensemble, the interpolants of cell 3 answer a query below 1 or above
    twice that maximum with the interpolation error,
    never with an extrapolated or edge value; when the loop reaches a
    particle whose Lorentz factor lies outside, in step t after i
    particles of that step, the loop ends there with that very error. *)
Theorem out_of_grid_aborts :
  forall S39 R40 Kalpha chi0 k0 m S_intrp R_intrp,
    np.max (gmdist k0) = Ok m -> 1 <= 2 * m ->
    cell3 S39 R40 Kalpha chi0 k0 = Ok ((S_intrp, R_intrp), k0) ->
    (forall q, q < 1 ->
        interpolate.call S_intrp q = Raise ValueError_below
        /\ interpolate.call R_intrp q = Raise ValueError_below)
    /\ (forall q, 1 <= q -> 2 * m < q ->
        interpolate.call S_intrp q = Raise ValueError_above
        /\ interpolate.call R_intrp q = Raise ValueError_above)
    /\ (forall Nsmpl tdim dt randn t i k1 k2 g,
        (t < Z.to_nat tdim)%nat -> (i < Z.to_nat Nsmpl)%nat ->
        for_ (seq 0 t)
             (timestep Nsmpl tdim dt (interpolate.call S_intrp)
                       (interpolate.call R_intrp) randn) k0 = Ok (tt, k1) ->
        for_ (seq 0 i)
             (particle dt (interpolate.call S_intrp)
                       (interpolate.call R_intrp) randn) k1 = Ok (tt, k2) ->
        gmdist k2 !! i = Some g ->
        (g < 1 ->
         cell4 Nsmpl tdim dt (interpolate.call S_intrp)
               (interpolate.call R_intrp) randn k0 = Raise ValueError_below)
        /\ (1 <= g -> 2 * m < g ->
            cell4 Nsmpl tdim dt (interpolate.call S_intrp)
                  (interpolate.call R_intrp) randn k0 = Raise ValueError_above)).
Proof.
  intros S39 R40 Kalpha chi0 k0 m S_intrp R_intrp Hmax _ Hcell.
  rewrite (cell3_closed _ _ _ _ _ _ Hmax) in Hcell. cbv zeta in Hcell.
  injection Hcell as <- <-.
  pose proof (linspace_length 1 (2 * m) 200) as Hlen.
  assert (forall ys q, q < 1 ->
            interpolate.call (interpolate.interp1d (np.linspace 1 (2 * m) 200) ys) q
            = Raise ValueError_below) as Hbelow.
  { intros ys q Hq. apply call_below. rewrite gmlst_first. exact Hq. }
  assert (forall ys q, 1 <= q -> 2 * m < q ->
            interpolate.call (interpolate.interp1d (np.linspace 1 (2 * m) 200) ys) q
            = Raise ValueError_above) as Habove.
  { intros ys q Hq1 Hq. apply (call_above _ _ 200 Hlen).
    - rewrite gmlst_first. exact Hq1.
    - change (200 - 1)%nat with 199%nat. rewrite gmlst_last. exact Hq. }
  split; [|split].
  - intros q Hq. split; apply Hbelow, Hq.
  - intros q Hq1 Hq. split; apply Habove; assumption.
  - intros Nsmpl tdim dt randn t i k1 k2 g Ht Hi Hsteps Hpass Hg. split.
    + intros Hlt. eapply cell4_abort; eauto.
    + intros Hge Hgt. eapply cell4_abort; eauto.
Qed.

Lemma call_linear_const (xs : list R) c q :
  (2 <= length xs)%nat ->
  interpolate.call_linear (interpolate.interp1d xs (map (fun _ => c) xs)) q = c.
Proof.
  intros Hlen. unfold interpolate.call_linear, interpolate.clip.
  cbn [interpolate.x interpolate.y].
  rewrite !nth_map_lt by lia. unfold Rdiv. ring.
Qed.

Lemma call_const_table m c q :
  1 <= q <= 2 * m ->
  interpolate.call
    (interpolate.interp1d (np.linspace 1 (2 * m) 200)
                          (map (fun _ => c) (np.linspace 1 (2 * m) 200))) q
  = Ok c.
Proof.
  intros Hq. pose proof (linspace_length 1 (2 * m) 200) as Hlen.
  rewrite (call_in_range _ _ 200 Hlen).
  - now rewrite call_linear_const by (rewrite Hlen; lia).
  - change (200 - 1)%nat with 199%nat. now rewrite gmlst_first, gmlst_last.
Qed.

Lemma out_of_grid_aborts_witness :
  let gmlst := np.linspace 1 (2 * 1800) 200 in
  let S_intrp := interpolate.interp1d gmlst (map (fun _ => 0) gmlst) in
  let R_intrp := interpolate.interp1d gmlst (map (fun _ => 1) gmlst) in
  cell4 1 2 1 (interpolate.call S_intrp) (interpolate.call R_intrp)
        (fun _ => 10000) (Kernel [1800] [1800] [0] [0] 0)
  = Raise ValueError_above.
Proof.
  intros gmlst S_intrp R_intrp.
  set (k0 := Kernel [1800] [1800] [0] [0] 0).
  set (k1 := Kernel [11800] [1800] [0] [0] 1).
  destruct (out_of_grid_aborts (fun _ _ => 0) (fun _ _ _ => 1) 1 0.1 k0 1800
              S_intrp R_intrp eq_refl ltac:(lra) eq_refl) as (_ & _ & Habort).
  apply (Habort 1%Z 2%Z 1 (fun _ => 10000) 1%nat 0%nat k1 k1 11800);
    [cbn; lia | cbn; lia | | reflexivity | reflexivity | lra | lra].
  cbn [seq for_]. unfold bind. rewrite timestep_sweep.
  unfold sweep, range. change (Z.to_nat 1) with 1%nat. cbn [seq for_]. unfold bind.
  rewrite particle_closed. cbn [k0 gmdist lookup list_lookup randn_calls].
  rewrite (pushed_Ok _ _ _ _ _ 0 1);
    [ | apply call_const_table; lra | apply call_const_table; lra | lra | lra].
  rewrite sqrt_1, clamp1_id by lra.
  replace (1800 + (- 0 * 1 + 1 * (1 * 10000))) with 11800 by lra.
  reflexivity.
Defined.

(** ** The lower end of the grid *)

Lemma for_never {A} (P : kernel -> Prop) (e : exn) (l : list A) (body : A -> nb unit) :
  (forall a k, P k -> body a k <> Raise e) ->
  (forall a k k', P k -> body a k = Ok (tt, k') -> P k') ->
  forall k, P k -> for_ l body k <> Raise e.
Proof.
  intros Hne Hinv. induction l as [|a l IH]; intros k HP; cbn [for_].
  - discriminate.
  - unfold bind. destruct (body a k) as [[[] k1]|e1] eqn:Ha.
    + apply IH. eapply Hinv; eauto.
    + intros [= ->]. now apply (Hne a k HP).
Qed.

Lemma mask_below_1_physical a : physical (mask_below_1 a).
Proof.
  unfold physical, mask_below_1. apply Forall_fmap, Forall_true.
  intros v. apply clamp1_ge.
Qed.

Lemma call_not_below f g :
  nth 0 (interpolate.x f) 0 = 1 -> 1 <= g ->
  interpolate.call f g <> Raise ValueError_below.
Proof.
  intros Hx Hg. unfold interpolate.call. rewrite Hx.
  destruct (Rlt_dec g 1) as [Hlt|_]; [lra|].
  now destruct (Rlt_dec _ g).
Qed.

Section NeverBelow.

Variables S_intrp R_intrp : R -> result R.
Hypothesis HS : forall g, 1 <= g -> S_intrp g <> Raise ValueError_below.
Hypothesis HR : forall g, 1 <= g -> R_intrp g <> Raise ValueError_below.

Lemma pushed_not_below dt z g :
  1 <= g -> pushed dt S_intrp R_intrp z g <> Raise ValueError_below.
Proof using HS HR.
  intros Hg. unfold pushed, pushers.sqrt.
  pose proof (HS g Hg). pose proof (HR g Hg).
  destruct (S_intrp g) as [Sv|e]; [|congruence].
  destruct (R_intrp g) as [Rv|e]; [|congruence].
  destruct (Rlt_dec dt 0); [discriminate|].
  destruct (Rlt_dec Rv 0); discriminate.
Qed.

Lemma particle_not_below dt randn i k :
  physical (gmdist k) ->
  particle dt S_intrp R_intrp randn i k <> Raise ValueError_below.
Proof using HS HR.
  intros HP. rewrite particle_closed.
  destruct (gmdist k !! i) as [g|] eqn:Hg; [|discriminate].
  assert (1 <= g) as Hge.
  { unfold physical in HP. rewrite Forall_lookup in HP. exact (HP i g Hg). }
  pose proof (pushed_not_below dt (randn (randn_calls k)) g Hge).
  destruct (pushed _ _ _ _ g); [discriminate|congruence].
Qed.

Lemma sweep_not_below Nsmpl dt randn k :
  physical (gmdist k) ->
  sweep Nsmpl dt S_intrp R_intrp randn k <> Raise ValueError_below.
Proof using HS HR.
  apply (for_never (fun k => physical (gmdist k))).
  - intros i k0. apply particle_not_below.
  - intros i k0 k1. apply particle_physical.
Qed.

Lemma timestep_not_below Nsmpl tdim dt randn t k :
  physical (gmdist k) ->
  timestep Nsmpl tdim dt S_intrp R_intrp randn t k <> Raise ValueError_below.
Proof using HS HR.
  intros HP. rewrite timestep_sweep.
  pose proof (sweep_not_below Nsmpl dt randn k HP).
  destruct (sweep _ _ _ _ _ k) as [[[] k1]|e]; [discriminate|congruence].
Qed.

Lemma cell4_not_below Nsmpl tdim dt randn k :
  physical (gmdist k) ->
  cell4 Nsmpl tdim dt S_intrp R_intrp randn k <> Raise ValueError_below.
Proof using HS HR.
  intros HP. unfold cell4, bind.
  pose proof (for_never (fun k => physical (gmdist k)) ValueError_below
                (range tdim) (timestep Nsmpl tdim dt S_intrp R_intrp randn)
                (fun t k0 => timestep_not_below Nsmpl tdim dt randn t k0)
                (fun t k0 k1 => timestep_physical _ _ _ _ _ _ t k0 k1) k HP) as H.
  destruct (for_ _ _ k) as [[[] k1]|e]; [discriminate|congruence].
Qed.

End NeverBelow.

Lemma cell2_Ok_inv Nsmpl tmax tdim standard_normal kinit dt k0 :
  cell2 Nsmpl tmax tdim standard_normal kinit = Ok (dt, k0) ->
  gmdist k0
  = mask_below_1 (map (fun i => 1800 + 90 * standard_normal i) (range Nsmpl)).
Proof.
  unfold cell2. destruct (Nsmpl <? 0)%Z; [discriminate|].
  destruct (tdim =? 0)%Z; [discriminate|]. now intros [= _ <-].
Qed.

Lemma cell3_Ok_inv S39 R40 Kalpha chi0 k intrp k' :
  cell3 S39 R40 Kalpha chi0 k = Ok (intrp, k') ->
  k' = k
  /\ nth 0 (interpolate.x (fst intrp)) 0 = 1
  /\ nth 0 (interpolate.x (snd intrp)) 0 = 1.
Proof.
  unfold cell3. destruct (np.max (gmdist k)) as [m|e]; [|discriminate].
  pose proof (gmlst_first m) as H0. cbv zeta.
  set (gmlst := np.linspace 1 (2 * m) 200) in *. clearbody gmlst.
  intros [= <- <-]. cbn [fst snd interpolate.x]. now rewrite H0.
Qed.

(** C10. Cell 2 leaves an ensemble that is everywhere at least 1, the
    grid of cell 3 starts at exactly 1, and the loop writes nothing below
    1: every state the loop reaches queries the interpolants at a Lorentz
    factor of at least 1, no query is answered with the below-range
    error, and neither the loop nor the notebook as a whole ever ends in
    it. *)
Theorem below_range_unreachable :
  (forall S39 R40 Kalpha Nsmpl chi0 tmax tdim standard_normal randn
          kinit dt k0 intrp k0',
      cell2 Nsmpl tmax tdim standard_normal kinit = Ok (dt, k0) ->
      cell3 S39 R40 Kalpha chi0 k0 = Ok (intrp, k0') ->
      let S_intrp := interpolate.call (fst intrp) in
      let R_intrp := interpolate.call (snd intrp) in
      physical (gmdist k0)
      /\ nth 0 (interpolate.x (fst intrp)) 0 = 1
      /\ nth 0 (interpolate.x (snd intrp)) 0 = 1
      /\ (forall t i k1 k2 g,
            for_ (seq 0 t) (timestep Nsmpl tdim dt S_intrp R_intrp randn) k0
            = Ok (tt, k1) ->
            for_ (seq 0 i) (particle dt S_intrp R_intrp randn) k1 = Ok (tt, k2) ->
            gmdist k2 !! i = Some g ->
            1 <= g
            /\ S_intrp g <> Raise ValueError_below
            /\ R_intrp g <> Raise ValueError_below)
      /\ cell4 Nsmpl tdim dt S_intrp R_intrp randn k0 <> Raise ValueError_below)
  /\ (forall S39 R40 Kalpha Nsmpl chi0 tmax tdim standard_normal randn,
      notebook S39 R40 Kalpha Nsmpl chi0 tmax tdim standard_normal randn
      <> Raise ValueError_below).
Proof.
  assert (forall S39 R40 Kalpha Nsmpl chi0 tmax tdim standard_normal
                 kinit dt k0 intrp k0',
             cell2 Nsmpl tmax tdim standard_normal kinit = Ok (dt, k0) ->
             cell3 S39 R40 Kalpha chi0 k0 = Ok (intrp, k0') ->
             k0' = k0 /\ physical (gmdist k0)
             /\ (forall g, 1 <= g ->
                   interpolate.call (fst intrp) g <> Raise ValueError_below)
             /\ (forall g, 1 <= g ->
                   interpolate.call (snd intrp) g <> Raise ValueError_below))
    as Hsetup.
  { intros S39 R40 Kalpha Nsmpl chi0 tmax tdim standard_normal kinit dt k0
           intrp k0' H2 H3.
    apply cell2_Ok_inv in H2. apply cell3_Ok_inv in H3 as (-> & HxS & HxR).
    split; [reflexivity|]. split; [rewrite H2; apply mask_below_1_physical|].
    split; intros g Hg; now apply call_not_below. }
  split.
  - intros S39 R40 Kalpha Nsmpl chi0 tmax tdim standard_normal randn
           kinit dt k0 intrp k0' H2 H3 S_intrp R_intrp.
    destruct (Hsetup _ _ _ _ _ _ _ _ _ _ _ _ _ H2 H3) as (_ & HP & HS & HR).
    apply cell3_Ok_inv in H3 as (_ & HxS & HxR).
    split; [exact HP|]. split; [exact HxS|]. split; [exact HxR|]. split.
    + intros t i k1 k2 g Hsteps Hpass Hg.
      assert (physical (gmdist k1)) as HP1.
      { eapply (for_invariant (fun k => physical (gmdist k))); [|exact HP|exact Hsteps].
        intros t0 k3 k4 _. apply timestep_physical. }
      assert (physical (gmdist k2)) as HP2.
      { eapply (for_invariant (fun k => physical (gmdist k))); [|exact HP1|exact Hpass].
        intros i0 k3 k4 _. apply particle_physical. }
      assert (1 <= g) as Hge.
      { unfold physical in HP2. rewrite Forall_lookup in HP2. exact (HP2 i g Hg). }
      split; [exact Hge|]. split; [apply HS|apply HR]; exact Hge.
    + now apply cell4_not_below.
  - intros S39 R40 Kalpha Nsmpl chi0 tmax tdim standard_normal randn.
    unfold notebook, bind.
    destruct (cell2 _ _ _ _ _) as [[dt k0]|e] eqn:H2.
    2:{ unfold cell2 in H2. destruct (Nsmpl <? 0)%Z; [congruence|].
        destruct (tdim =? 0)%Z; congruence. }
    destruct (cell3 _ _ _ _ k0) as [[intrp k0']|e] eqn:H3.
    2:{ unfold cell3, np.max in H3. destruct (gmdist k0); congruence. }
    destruct (Hsetup _ _ _ _ _ _ _ _ _ _ _ _ _ H2 H3) as (-> & HP & HS & HR).
    pose proof (cell4_not_below _ _ HS HR Nsmpl tdim dt randn k0 HP) as H4.
    destruct (cell4 _ _ _ _ _ _ k0) as [[[] k]|e]; [discriminate|congruence].
Qed.

Lemma below_range_unreachable_witness :
  let g := mask_below_1 (map (fun _ : nat => 1800 + 90 * 0) (range 1)) in
  let k0 := Kernel g g (map (fun v => v * 0) g) (map (fun v => v * 0) g) 0 in
  let gmlst := np.linspace 1 (2 * clamp1 (1800 + 90 * 0)) 200 in
  let S_intrp := interpolate.interp1d gmlst (map (fun _ => 10) gmlst) in
  let R_intrp := interpolate.interp1d gmlst (map (fun _ => 0) gmlst) in
  physical (gmdist k0)
  /\ cell4 1 2 (2 / IZR 2) (interpolate.call S_intrp) (interpolate.call R_intrp)
           (fun _ => 0) k0
     <> Raise ValueError_below.
Proof.
  intros g k0 gmlst S_intrp R_intrp.
  destruct (proj1 below_range_unreachable (fun _ _ => 10) (fun _ _ _ => 0) 1
                  1%Z 0.1 2 2%Z (fun _ => 0) (fun _ => 0)
                  (Kernel [] [] [] [] 0) (2 / IZR 2) k0 (S_intrp, R_intrp) k0
                  eq_refl eq_refl)
    as (HP & _ & _ & _ & Hrun).
  split; [exact HP|exact Hrun].
Defined.

(** ** The scenario of the spec, through the tables of cell 3 *)

Lemma pushed_tables_drift_only g :
  1.05 <= g <= 3600 ->
  let gmlst := np.linspace 1 (2 * 1800) 200 in
  pushed 0.005
         (interpolate.call (interpolate.interp1d gmlst (map (fun _ => 10) gmlst)))
         (interpolate.call (interpolate.interp1d gmlst (map (fun _ => 0) gmlst)))
         0 g
  = Ok (g - 0.05).
Proof.
  intros Hg gmlst.
  rewrite (pushed_Ok _ _ _ _ _ 10 0);
    [ | apply call_const_table; lra | apply call_const_table; lra | lra | lra].
  rewrite sqrt_0, clamp1_id by lra. f_equal. lra.
Qed.

Lemma sweep_tables_drift_only a b c d1 d2 d3 n :
  1.05 <= a <= 3600 -> 1.05 <= b <= 3600 -> 1.05 <= c <= 3600 ->
  let gmlst := np.linspace 1 (2 * 1800) 200 in
  sweep 3 0.005
        (interpolate.call (interpolate.interp1d gmlst (map (fun _ => 10) gmlst)))
        (interpolate.call (interpolate.interp1d gmlst (map (fun _ => 0) gmlst)))
        (fun _ => 0) (Kernel [a; b; c] d1 d2 d3 n)
  = Ok (tt, Kernel [a - 0.05; b - 0.05; c - 0.05] d1 d2 d3 (S (S (S n)))).
Proof.
  intros Ha Hb Hc gmlst. unfold sweep, range.
  change (Z.to_nat 3) with 3%nat. cbn [seq for_]. unfold bind.
  do 3 push_with pushed_tables_drift_only. reflexivity.
Qed.

Lemma cell2_drift_only kinit :
  cell2 3 0.01 2 (fun _ => 0) kinit
  = Ok (0.005, Kernel [1800; 1800; 1800] [1800; 1800; 1800]
                      [0; 0; 0] [0; 0; 0] (randn_calls kinit)).
Proof.
  unfold cell2, range, mask_below_1, np.copy.
  change (3 <? 0)%Z with false. change (2 =? 0)%Z with false.
  change (Z.to_nat 3) with 3%nat. cbn [seq map].
  change (if Rlt_dec (1800 + 90 * 0) 1 then 1 else 1800 + 90 * 0)
    with (clamp1 (1800 + 90 * 0)).
  rewrite clamp1_id by lra.
  replace (1800 + 90 * 0) with 1800 by lra.
  replace (1800 * 0) with 0 by lra.
  replace (0.01 / 2) with 0.005 by lra.
  reflexivity.
Qed.

Lemma notebook_drift_only Kalpha chi0 :
  notebook (fun _ _ => 10) (fun _ _ _ => 0) Kalpha 3 chi0 0.01 2
           (fun _ => 0) (fun _ => 0)
  = Ok ([1800; 1800; 1800], [1799.9; 1799.9; 1799.9], [1799.9; 1799.9; 1799.9]).
Proof.
  unfold notebook, bind. rewrite cell2_drift_only. cbn [randn_calls].
  rewrite (cell3_closed _ _ _ _ _ 1800).
  2:{ cbn. unfold Rmax. now repeat destruct (Rle_dec _ _). }
  cbv zeta. cbn [fst snd].
  unfold cell4, timestep, int_tdim_half.
  unfold range at 1. change (Z.to_nat 2) with 2%nat. cbn [seq for_].
  unfold bind.
  pose proof sweep_tables_drift_only as Hsweep. unfold sweep in Hsweep.
  cbv zeta in Hsweep.
  rewrite Hsweep by lra.
  change (Z.of_nat 0 =? 2 `quot` 2)%Z with false.
  change (Z.of_nat 1 =? 2 `quot` 2)%Z with true.
  unfold ret. rewrite Hsweep by lra.
  unfold save_dump2, save_dump3, np.copy;
    cbn [gmdist gmdist_dump1 gmdist_dump2 gmdist_dump3 randn_calls].
  replace (1800 - 0.05 - 0.05) with 1799.9 by lra.
  reflexivity.
Qed.

(** C1. One pass of the body at a particle with Lorentz factor [g] reads
    S and R off the interpolants at [g], forms dW = sqrt(dt) * z from one
    draw z, and stores g + (-S*dt + sqrt(R)*dW), subject only to the lower
    bound that follows; with three particles at 1800, two timesteps of
    0.005, S = 10, R = 0 and all draws 0 the loop ends with the ensemble
    [1799.9, 1799.9, 1799.9], whether the constant interpolants are
    handed to the loop directly or tabulated by cell 3 from constant
    S39 and R40. *)
Theorem euler_maruyama_step :
  (forall dt (S_intrp R_intrp : R -> result R) randn i k g Sv Rv,
      gmdist k !! i = Some g ->
      S_intrp g = Ok Sv -> R_intrp g = Ok Rv -> 0 <= dt -> 0 <= Rv ->
      let z := randn (randn_calls k) in
      let dW := sqrt dt * z in
      particle dt S_intrp R_intrp randn i k =
      Ok (tt, with_gmdist (<[i := clamp1 (g + (- Sv * dt + sqrt Rv * dW))]> (gmdist k))
                          (S (randn_calls k)) k))
  /\ (let g0 := [1800; 1800; 1800] in
      let g2 := [1799.9; 1799.9; 1799.9] in
      cell4 3 2 0.005 (fun _ => Ok 10) (fun _ => Ok 0) (fun _ => 0)
            (Kernel g0 g0 [0; 0; 0] [0; 0; 0] 0)
      = Ok (tt, Kernel g2 g0 g2 g2 6)
      /\ forall Kalpha chi0,
          notebook (fun _ _ => 10) (fun _ _ _ => 0) Kalpha 3 chi0 0.01 2
                   (fun _ => 0) (fun _ => 0)
          = Ok (g0, g2, g2)).
Proof.
  split; [|split; [|exact notebook_drift_only]].
  - intros dt S_intrp R_intrp randn i k g Sv Rv Hg HS HR Hdt HRv z dW.
    rewrite particle_closed, Hg.
    now rewrite (pushed_Ok _ _ _ _ _ Sv Rv HS HR Hdt HRv).
  - cbv zeta. unfold cell4, timestep, int_tdim_half.
    fold (sweep 3 0.005 (fun _ => Ok 10) (fun _ => Ok 0) (fun _ => 0)).
    unfold range at 1. change (Z.to_nat 2) with 2%nat. cbn [seq for_].
    unfold bind.
    rewrite sweep_drift_only by lra.
    change (Z.of_nat 0 =? 2 `quot` 2)%Z with false.
    change (Z.of_nat 1 =? 2 `quot` 2)%Z with true.
    unfold ret. rewrite sweep_drift_only by lra.
    unfold save_dump2, save_dump3, np.copy; cbn [gmdist gmdist_dump1 gmdist_dump2 gmdist_dump3 randn_calls].
    replace (1800 - 0.05 - 0.05) with 1799.9 by lra.
    reflexivity.
Qed.

Lemma euler_maruyama_step_witness :
  let k := Kernel [1800] [1800] [0] [0] 0 in
  particle 0.005 (fun _ => Ok 10) (fun _ => Ok 0) (fun _ => 0) 0 k =
  Ok (tt, with_gmdist
            (<[0%nat := clamp1 (1800 + (- 10 * 0.005 + sqrt 0 * (sqrt 0.005 * 0)))]> [1800])
            1 k).
Proof.
  intros k.
  apply (proj1 euler_maruyama_step 0.005 (fun _ => Ok 10) (fun _ => Ok 0)
               (fun _ => 0) 0%nat k 1800 10 0);
    [reflexivity | reflexivity | reflexivity | lra | lra].
Defined.


(** * Further properties of the notebook *)

(** ** Accounting of the loop *)

Lemma cell4_drift_only :
  cell4 3 2 0.005 (fun _ => Ok 10) (fun _ => Ok 0) (fun _ => 0)
        (Kernel [1800; 1800; 1800] [1800; 1800; 1800] [0; 0; 0] [0; 0; 0] 0)
  = Ok (tt, Kernel [1800 - 0.05 - 0.05; 1800 - 0.05 - 0.05; 1800 - 0.05 - 0.05]
                   [1800; 1800; 1800]
                   [1800 - 0.05 - 0.05; 1800 - 0.05 - 0.05; 1800 - 0.05 - 0.05]
                   [1800 - 0.05 - 0.05; 1800 - 0.05 - 0.05; 1800 - 0.05 - 0.05] 6).
Proof.
  unfold cell4, timestep, int_tdim_half.
  fold (sweep 3 0.005 (fun _ => Ok 10) (fun _ => Ok 0) (fun _ => 0)).
  unfold range at 1. change (Z.to_nat 2) with 2%nat. cbn [seq for_].
  unfold bind.
  rewrite sweep_drift_only by lra.
  change (Z.of_nat 0 =? 2 `quot` 2)%Z with false.
  change (Z.of_nat 1 =? 2 `quot` 2)%Z with true.
  unfold ret. rewrite sweep_drift_only by lra.
  reflexivity.
Qed.

Lemma for_timestep_calls Nsmpl tdim dt S_intrp R_intrp randn (l : list nat) :
  forall k k',
    for_ l (timestep Nsmpl tdim dt S_intrp R_intrp randn) k = Ok (tt, k') ->
    randn_calls k' = (randn_calls k + length l * Z.to_nat Nsmpl)%nat.
Proof.
  induction l as [|t l IH]; intros k k' H; cbn [for_] in H.
  - injection H as <-. simpl. lia.
  - apply bind_Ok_inv in H as ([] & k1 & H1 & H2).
    apply IH in H2. apply timestep_calls in H1. simpl. lia.
Qed.

(** X1. A loop that completes has called np.random.randn() exactly
    T * N times: one draw per particle per timestep, none for T <= 0 or
    N <= 0. *)
Theorem draws_consumed :
  forall Nsmpl tdim dt S_intrp R_intrp randn k k',
    cell4 Nsmpl tdim dt S_intrp R_intrp randn k = Ok (tt, k') ->
    randn_calls k' = (randn_calls k + Z.to_nat tdim * Z.to_nat Nsmpl)%nat.
Proof.
  intros Nsmpl tdim dt S_intrp R_intrp randn k k' H. unfold cell4 in H.
  apply bind_Ok_inv in H as ([] & k1 & Hloop & Hsave).
  apply for_timestep_calls in Hloop. unfold range in Hloop.
  rewrite length_seq in Hloop.
  unfold save_dump3 in Hsave. injection Hsave as <-. exact Hloop.
Qed.

Lemma draws_consumed_witness :
  randn_calls
    (Kernel [1800 - 0.05 - 0.05; 1800 - 0.05 - 0.05; 1800 - 0.05 - 0.05]
            [1800; 1800; 1800]
            [1800 - 0.05 - 0.05; 1800 - 0.05 - 0.05; 1800 - 0.05 - 0.05]
            [1800 - 0.05 - 0.05; 1800 - 0.05 - 0.05; 1800 - 0.05 - 0.05] 6)
  = (0 + Z.to_nat 2 * Z.to_nat 3)%nat.
Proof.
  apply (draws_consumed 3 2 0.005 (fun _ => Ok 10) (fun _ => Ok 0) (fun _ => 0)
           (Kernel [1800; 1800; 1800] [1800; 1800; 1800] [0; 0; 0] [0; 0; 0] 0)).
  apply cell4_drift_only.
Defined.

Lemma particle_shape dt S_intrp R_intrp randn i k k' :
  particle dt S_intrp R_intrp randn i k = Ok (tt, k') ->
  length (gmdist k') = length (gmdist k)
  /\ gmdist_dump1 k' = gmdist_dump1 k
  /\ gmdist_dump2 k' = gmdist_dump2 k
  /\ gmdist_dump3 k' = gmdist_dump3 k.
Proof.
  intros H. apply particle_Ok_inv in H as (g & v & _ & _ & ->).
  cbn. now rewrite length_insert.
Qed.

Lemma sweep_shape Nsmpl dt S_intrp R_intrp randn k k' :
  sweep Nsmpl dt S_intrp R_intrp randn k = Ok (tt, k') ->
  length (gmdist k') = length (gmdist k).
Proof.
  apply (for_invariant (fun k0 => length (gmdist k0) = length (gmdist k)));
    [|reflexivity].
  intros i k1 k2 _ H Hrun. apply particle_shape in Hrun as (-> & _). exact H.
Qed.

(** X2. A loop that completes has left gmdist_dump1 as it was and the
    ensemble at its length; the final dump is the live ensemble, and the
    mid dump is either untouched or an array of the ensemble's length. *)
Theorem loop_frame :
  forall Nsmpl tdim dt S_intrp R_intrp randn k k',
    cell4 Nsmpl tdim dt S_intrp R_intrp randn k = Ok (tt, k') ->
    gmdist_dump1 k' = gmdist_dump1 k
    /\ length (gmdist k') = length (gmdist k)
    /\ gmdist_dump3 k' = gmdist k'
    /\ (gmdist_dump2 k' = gmdist_dump2 k
        \/ length (gmdist_dump2 k') = length (gmdist k)).
Proof.
  intros Nsmpl tdim dt S_intrp R_intrp randn k k' H. unfold cell4 in H.
  apply bind_Ok_inv in H as ([] & k1 & Hloop & Hsave).
  assert (gmdist_dump1 k1 = gmdist_dump1 k
          /\ length (gmdist k1) = length (gmdist k)
          /\ (gmdist_dump2 k1 = gmdist_dump2 k
              \/ length (gmdist_dump2 k1) = length (gmdist k))) as (H1 & H2 & H3).
  { revert Hloop.
    apply (for_invariant
             (fun k0 => gmdist_dump1 k0 = gmdist_dump1 k
                        /\ length (gmdist k0) = length (gmdist k)
                        /\ (gmdist_dump2 k0 = gmdist_dump2 k
                            \/ length (gmdist_dump2 k0) = length (gmdist k))));
      [|now repeat split; [..|left]].
    intros t k2 k3 _ (Hd1 & Hlen & Hd2). rewrite timestep_sweep.
    destruct (sweep _ _ _ _ _ k2) as [[[] k4]|e] eqn:Hs; [|discriminate].
    intros [= <-]. pose proof (sweep_shape _ _ _ _ _ _ _ Hs) as Hlen4.
    apply sweep_dumps in Hs as (Hs1 & Hs2 & _).
    destruct (Z.of_nat t =? _)%Z; cbn.
    - repeat split; [congruence|congruence|right; congruence].
    - repeat split; [congruence|congruence|].
      rewrite Hs2. exact Hd2. }
  unfold save_dump3, np.copy in Hsave. injection Hsave as <-. cbn.
  now repeat split.
Qed.

Lemma loop_frame_witness :
  let k' := Kernel [1800 - 0.05 - 0.05; 1800 - 0.05 - 0.05; 1800 - 0.05 - 0.05]
                   [1800; 1800; 1800]
                   [1800 - 0.05 - 0.05; 1800 - 0.05 - 0.05; 1800 - 0.05 - 0.05]
                   [1800 - 0.05 - 0.05; 1800 - 0.05 - 0.05; 1800 - 0.05 - 0.05] 6 in
  let k := Kernel [1800; 1800; 1800] [1800; 1800; 1800] [0; 0; 0] [0; 0; 0] 0 in
  gmdist_dump1 k' = gmdist_dump1 k
  /\ length (gmdist k') = length (gmdist k)
  /\ gmdist_dump3 k' = gmdist k'
  /\ (gmdist_dump2 k' = gmdist_dump2 k
      \/ length (gmdist_dump2 k') = length (gmdist k)).
Proof.
  intros k' k.
  apply (loop_frame 3 2 0.005 (fun _ => Ok 10) (fun _ => Ok 0) (fun _ => 0) k k').
  apply cell4_drift_only.
Defined.

(** ** Snapshots and dynamics *)

Lemma for_timestep_vs_sweep Nsmpl tdim dt S_intrp R_intrp randn (l : list nat) :
  forall k d,
    match for_ l (fun _ => sweep Nsmpl dt S_intrp R_intrp randn) k with
    | Raise e =>
        for_ l (timestep Nsmpl tdim dt S_intrp R_intrp randn) (with_dump2 d k)
        = Raise e
    | Ok (_, k1) =>
        exists d',
          for_ l (timestep Nsmpl tdim dt S_intrp R_intrp randn) (with_dump2 d k)
          = Ok (tt, with_dump2 d' k1)
    end.
Proof.
  induction l as [|t l IH]; intros k d; cbn [for_].
  - unfold ret. now exists d.
  - unfold bind. rewrite timestep_sweep, sweep_dump2.
    destruct (sweep _ _ _ _ _ k) as [[[] k1]|e]; cbn [on_kernel]; [|reflexivity].
    destruct (Z.of_nat t =? _)%Z.
    + apply (IH k1 (gmdist (with_dump2 d k1))).
    + apply (IH k1 d).
Qed.

(** X3. Taking the mid snapshot never feeds back into the run: the loop
    fails exactly when T plain sweeps of the particle loop fail, with the
    same exception, and when they succeed its live ensemble, final dump,
    first dump and draw count are those the T sweeps leave. *)
Theorem snapshots_transparent :
  forall Nsmpl tdim dt S_intrp R_intrp randn k,
    match sweeps Nsmpl dt S_intrp R_intrp randn (Z.to_nat tdim) k with
    | Raise e => cell4 Nsmpl tdim dt S_intrp R_intrp randn k = Raise e
    | Ok (_, kT) =>
        exists d,
          cell4 Nsmpl tdim dt S_intrp R_intrp randn k
          = Ok (tt, Kernel (gmdist kT) (gmdist_dump1 kT) d (gmdist kT)
                           (randn_calls kT))
    end.
Proof.
  intros Nsmpl tdim dt S_intrp R_intrp randn k.
  pose proof (for_timestep_vs_sweep Nsmpl tdim dt S_intrp R_intrp randn
                (seq 0 (Z.to_nat tdim)) k (gmdist_dump2 k)) as H.
  replace (with_dump2 (gmdist_dump2 k) k) with k in H by now destruct k.
  unfold sweeps. unfold cell4, bind, range.
  destruct (for_ _ (fun _ => sweep _ _ _ _ _) k) as [[[] kT]|e].
  - destruct H as [d' ->]. exists d'. reflexivity.
  - now rewrite H.
Qed.

(** X4. For every T > 0 the mid dump is the ensemble after int(T/2) + 1
    completed sweeps (after the only sweep when T = 1, after two of three
    when T = 3), and the final dump the ensemble after all T. *)
Theorem mid_snapshot_any_T :
  forall Nsmpl tdim dt S_intrp R_intrp randn k0 kT,
    (0 < tdim)%Z ->
    sweeps Nsmpl dt S_intrp R_intrp randn (Z.to_nat tdim) k0 = Ok (tt, kT) ->
    exists kh,
      sweeps Nsmpl dt S_intrp R_intrp randn (S (Z.to_nat (int_tdim_half tdim))) k0
      = Ok (tt, kh)
      /\ cell4 Nsmpl tdim dt S_intrp R_intrp randn k0
         = Ok (tt, Kernel (gmdist kT) (gmdist_dump1 k0) (gmdist kh)
                          (gmdist kT) (randn_calls kT)).
Proof.
  intros Nsmpl tdim dt S_intrp R_intrp randn k0 kT Hpos HT.
  now apply cell4_snapshots.
Qed.

Lemma mid_snapshot_any_T_witness :
  let k0 := Kernel [1800] [1800] [0] [0] 0 in
  exists kh,
    sweeps 1 0.005 (fun _ => Ok 10) (fun _ => Ok 0) (fun _ => 0)
           (S (Z.to_nat (int_tdim_half 3))) k0
    = Ok (tt, kh)
    /\ cell4 1 3 0.005 (fun _ => Ok 10) (fun _ => Ok 0) (fun _ => 0) k0
       = Ok (tt, Kernel [1800 - 0.05 * INR 3] [1800] (gmdist kh)
                        [1800 - 0.05 * INR 3] (3 + 0)).
Proof.
  intros k0.
  apply (mid_snapshot_any_T 1 3 0.005 (fun _ => Ok 10) (fun _ => Ok 0)
           (fun _ => 0) k0 (Kernel [1800 - 0.05 * INR 3] [1800] [0] [0] (3 + 0)));
    [lia|].
  apply (sweeps_one_particle_drift 3). cbn [INR]. lra.
Defined.

(** ** The sampling cell *)





(** ** How the notebook can fail *)


Lemma pushed_raise_inv dt (S_intrp R_intrp : R -> result R) z g e :
  pushed dt S_intrp R_intrp z g = Raise e ->
  S_intrp g = Raise e \/ R_intrp g = Raise e \/ e = ValueError_math_domain.
Proof.
  unfold pushed, pushers.sqrt.
  destruct (S_intrp g) as [Sv|e1]; [|intros [= ->]; now left].
  destruct (R_intrp g) as [Rv|e1]; [|intros [= ->]; right; now left].
  destruct (Rlt_dec dt 0); [intros [= <-]; now right; right|].
  destruct (Rlt_dec Rv 0); [intros [= <-]; now right; right|discriminate].
Qed.



Lemma call_raise_inv f g e :
  interpolate.call f g = Raise e -> e = ValueError_below \/ e = ValueError_above.
Proof.
  unfold interpolate.call.
  destruct (Rlt_dec g _); [intros [= <-]; now left|].
  destruct (Rlt_dec _ g); [intros [= <-]; now right|discriminate].
Qed.







(** ** The grid and the sampled ensemble *)

Lemma fold_left_Rmax_spec (l : list R) :
  forall x,
    (fold_left Rmax l x = x \/ fold_left Rmax l x ∈ l)
    /\ x <= fold_left Rmax l x
    /\ (forall v, v ∈ l -> v <= fold_left Rmax l x).
Proof.
  induction l as [|y l IH]; intros x; cbn [fold_left].
  - split; [now left|]. split; [lra|]. intros v Hv. now apply not_elem_of_nil in Hv.
  - destruct (IH (Rmax x y)) as (Hin & Hge & Hall).
    pose proof (Rmax_l x y). pose proof (Rmax_r x y).
    split; [|split].
    + destruct Hin as [Heq|Hin]; [|right; now right].
      rewrite Heq. unfold Rmax. destruct (Rle_dec x y); [right; left|now left].
    + lra.
    + intros v Hv. apply elem_of_cons in Hv as [->|Hv]; [lra|now apply Hall].
Qed.

Lemma np_max_spec (a : list R) m :
  np.max a = Ok m -> m ∈ a /\ (forall v, v ∈ a -> v <= m).
Proof.
  unfold np.max. destruct a as [|x l]; [discriminate|]. intros [= <-].
  destruct (fold_left_Rmax_spec l x) as (Hin & Hge & Hall). split.
  - destruct Hin as [->|Hin]; [left|now right].
  - intros v Hv. apply elem_of_cons in Hv as [->|Hv]; [exact Hge|now apply Hall].
Qed.

Lemma for_particle_from dt (S_intrp R_intrp : R -> result R) randn e
    (Good : R -> Prop) :
  e <> IndexError -> e <> ValueError_math_domain ->
  (forall g, Good g -> S_intrp g <> Raise e /\ R_intrp g <> Raise e) ->
  forall n a k,
    (forall j g, (a <= j)%nat -> gmdist k !! j = Some g -> Good g) ->
    for_ (seq a n) (particle dt S_intrp R_intrp randn) k <> Raise e.
Proof.
  intros He1 He2 HGood. induction n as [|n IH]; intros a k Hk; cbn [seq for_].
  - discriminate.
  - unfold bind. rewrite particle_closed.
    destruct (gmdist k !! a) as [g|] eqn:Hg; [|congruence].
    destruct (pushed _ _ _ _ g) as [v|e1] eqn:Hp.
    + apply IH. intros j g' Hj. cbn [with_gmdist gmdist].
      rewrite list_lookup_insert_ne by lia. apply Hk. lia.
    + intros [= ->]. destruct (HGood g (Hk a g (le_n a) Hg)) as [HS HR].
      apply pushed_raise_inv in Hp as [H|[H|H]]; contradiction.
Qed.

(** X8. The grid of cell 3 covers the ensemble cell 2 sampled: its upper
    end is twice a Lorentz factor that occurs in the ensemble and bounds
    every other, so both interpolants answer at every sampled value, and
    the first sweep of the loop cannot leave the grid, below or above. *)
Theorem first_sweep_in_grid :
  forall S39 R40 Kalpha Nsmpl chi0 tmax tdim standard_normal randn
         kinit dt k0 intrp k0',
    cell2 Nsmpl tmax tdim standard_normal kinit = Ok (dt, k0) ->
    cell3 S39 R40 Kalpha chi0 k0 = Ok (intrp, k0') ->
    let S_intrp := interpolate.call (fst intrp) in
    let R_intrp := interpolate.call (snd intrp) in
    exists m,
      np.max (gmdist k0) = Ok m /\ m ∈ gmdist k0
      /\ nth 199 (interpolate.x (fst intrp)) 0 = 2 * m
      /\ (forall g, g ∈ gmdist k0 ->
            1 <= g <= m
            /\ exists s r, S_intrp g = Ok s /\ R_intrp g = Ok r)
      /\ sweep Nsmpl dt S_intrp R_intrp randn k0 <> Raise ValueError_above
      /\ sweep Nsmpl dt S_intrp R_intrp randn k0 <> Raise ValueError_below.
Proof.
  intros S39 R40 Kalpha Nsmpl chi0 tmax tdim standard_normal randn
         kinit dt k0 intrp k0' H2 H3 S_intrp R_intrp.
  apply cell2_Ok_inv in H2.
  assert (physical (gmdist k0)) as HP by (rewrite H2; apply mask_below_1_physical).
  unfold cell3 in H3. destruct (np.max (gmdist k0)) as [m|e] eqn:Hmax; [|discriminate].
  cbv zeta in H3.
  pose proof (gmlst_first m) as H0. pose proof (gmlst_last m) as H199.
  pose proof (linspace_length 1 (2 * m) 200) as Hlen.
  set (gmlst := np.linspace 1 (2 * m) 200) in *.
  assert (forall ys g, 1 <= g <= 2 * m ->
            exists v, interpolate.call (interpolate.interp1d gmlst ys) g = Ok v)
    as Hcall.
  { intros ys g Hg. eexists. apply (call_in_range _ _ 200 Hlen).
    change (200 - 1)%nat with 199%nat. rewrite H0, H199. exact Hg. }
  assert (forall ys g, 1 <= g <= 2 * m -> forall e,
            interpolate.call (interpolate.interp1d gmlst ys) g <> Raise e)
    as Hnever.
  { intros ys g Hg e. destruct (Hcall ys g Hg) as [v ->]. discriminate. }
  clearbody gmlst. injection H3 as <- <-.
  subst S_intrp R_intrp. cbn [fst snd interpolate.x].
  destruct (np_max_spec _ _ Hmax) as (Hin & Hall).
  assert (forall g, g ∈ gmdist k0 -> 1 <= g <= m) as Hrange.
  { intros g Hg. split; [|now apply Hall].
    unfold physical in HP. rewrite Forall_forall in HP. now apply HP. }
  assert (1 <= m) as Hm by (destruct (Hrange m Hin); lra).
  exists m. split; [reflexivity|]. split; [exact Hin|]. split; [exact H199|].
  split; [|split].
  - intros g Hg. split; [now apply Hrange|].
    destruct (Hrange g Hg) as [Hg1 Hgm].
    destruct (Hcall (map (fun gm => S39 (gm / 1800 * chi0) Kalpha) gmlst) g
                ltac:(lra)) as [s Hs].
    destruct (Hcall (map (fun gm => R40 (gm / 1800 * chi0) gm Kalpha) gmlst) g
                ltac:(lra)) as [r Hr].
    now exists s, r.
  - unfold sweep, range.
    apply (for_particle_from _ _ _ _ _ (fun g => 1 <= g <= 2 * m));
      [discriminate|discriminate| |].
    + intros g Hg. split; apply Hnever; exact Hg.
    + intros j g _ Hg. apply list_elem_of_lookup_2 in Hg.
      apply Hrange in Hg. lra.
  - unfold sweep, range.
    apply (for_particle_from _ _ _ _ _ (fun g => 1 <= g <= 2 * m));
      [discriminate|discriminate| |].
    + intros g Hg. split; apply Hnever; exact Hg.
    + intros j g _ Hg. apply list_elem_of_lookup_2 in Hg.
      apply Hrange in Hg. lra.
Qed.

Lemma first_sweep_in_grid_witness :
  let g := mask_below_1 (map (fun _ : nat => 1800 + 90 * 0) (range 1)) in
  let k0 := Kernel g g (map (fun v => v * 0) g) (map (fun v => v * 0) g) 0 in
  let gmlst := np.linspace 1 (2 * clamp1 (1800 + 90 * 0)) 200 in
  let S_intrp := interpolate.interp1d gmlst (map (fun _ => 10) gmlst) in
  let R_intrp := interpolate.interp1d gmlst (map (fun _ => 0) gmlst) in
  sweep 1 (2 / IZR 2) (interpolate.call S_intrp) (interpolate.call R_intrp)
        (fun _ => 0) k0
  <> Raise ValueError_above.
Proof.
  intros g k0 gmlst S_intrp R_intrp.
  destruct (first_sweep_in_grid (fun _ _ => 10) (fun _ _ _ => 0) 1
              1%Z 0.1 2 2%Z (fun _ => 0) (fun _ => 0)
              (Kernel [] [] [] [] 0) (2 / IZR 2) k0 (S_intrp, R_intrp) k0
              eq_refl eq_refl)
    as (m & _ & _ & _ & _ & H & _).
  exact H.
Defined.

(** ** The interpolants stay within their tables *)

Lemma searchsorted_lt (xs : list R) q :
  forall i, (i < interpolate.searchsorted xs q)%nat -> nth i xs 0 < q.
Proof.
  induction xs as [|x0 xs IH]; intros i Hi; cbn [interpolate.searchsorted] in Hi.
  - lia.
  - destruct (Rlt_dec x0 q) as [Hlt|_]; [|lia].
    destruct i as [|i]; [exact Hlt|]. cbn [nth]. apply IH. lia.
Qed.

Lemma searchsorted_ge (xs : list R) q :
  (interpolate.searchsorted xs q < length xs)%nat ->
  q <= nth (interpolate.searchsorted xs q) xs 0.
Proof.
  induction xs as [|x0 xs IH]; cbn [interpolate.searchsorted length]; [lia|].
  destruct (Rlt_dec x0 q) as [_|Hge]; cbn [nth].
  - intros H. apply IH. lia.
  - intros _. lra.
Qed.

Lemma searchsorted_le_length (xs : list R) q :
  (interpolate.searchsorted xs q <= length xs)%nat.
Proof.
  induction xs as [|x0 xs IH]; cbn [interpolate.searchsorted length]; [lia|].
  destruct (Rlt_dec x0 q); lia.
Qed.

Lemma chord_between y_lo y_hi x_lo x_hi q lo hi :
  x_lo < x_hi -> x_lo <= q <= x_hi ->
  lo <= y_lo <= hi -> lo <= y_hi <= hi ->
  lo <= (y_hi - y_lo) / (x_hi - x_lo) * (q - x_lo) + y_lo <= hi.
Proof.
  intros Hx Hq Hlo Hhi.
  set (t := (q - x_lo) / (x_hi - x_lo)).
  assert (0 <= t <= 1) as Ht.
  { unfold t. split.
    - apply Rmult_le_pos; [lra|]. left. apply Rinv_0_lt_compat. lra.
    - apply (Rmult_le_reg_r (x_hi - x_lo)); [lra|].
      unfold Rdiv. rewrite Rmult_assoc, Rinv_l by lra. lra. }
  replace ((y_hi - y_lo) / (x_hi - x_lo) * (q - x_lo) + y_lo)
    with (y_lo + (y_hi - y_lo) * t) by (unfold t; field; lra).
  nra.
Qed.

Section GridBounds.

Variables (xs ys : list R) (a h : R) (N : nat).
Hypothesis HN : (2 <= N)%nat.
Hypothesis Hlen : length xs = N.
Hypothesis Hh : 0 < h.
Hypothesis Hxs : forall i, (i < N)%nat -> nth i xs 0 = a + INR i * h.

(** The segment the linear rule picks for an in-range query encloses
    the query. *)
Lemma clip_segment q :
  nth 0 xs 0 <= q <= nth (N - 1) xs 0 ->
  let hi := interpolate.clip (interpolate.searchsorted xs q) 1 (N - 1) in
  (1 <= hi < N)%nat /\ nth (hi - 1) xs 0 <= q <= nth hi xs 0.
Proof using HN Hlen Hh Hxs.
  intros [Hq0 HqN] hi. subst hi. unfold interpolate.clip.
  pose proof (searchsorted_le_length xs q) as Hs. rewrite Hlen in Hs.
  destruct (decide (interpolate.searchsorted xs q = N)) as [HsN|HsN].
  { pose proof (searchsorted_lt xs q (N - 1) ltac:(lia)). lra. }
  pose proof (searchsorted_ge xs q ltac:(lia)) as Hge.
  destruct (interpolate.searchsorted xs q) as [|s] eqn:Es.
  - replace (Nat.min (Nat.max 0 1) (N - 1)) with 1%nat by lia.
    split; [lia|]. change (1 - 1)%nat with 0%nat.
    pose proof (grid_monotone xs a h N HN Hlen Hh Hxs 0 1 ltac:(lia) ltac:(lia)).
    lra.
  - replace (Nat.min (Nat.max (S s) 1) (N - 1)) with (S s) by lia.
    split; [lia|]. replace (S s - 1)%nat with s by lia.
    pose proof (searchsorted_lt xs q s ltac:(lia)). lra.
Qed.

Lemma call_linear_within q lo hi :
  nth 0 xs 0 <= q <= nth (N - 1) xs 0 ->
  (forall i, (i < N)%nat -> lo <= nth i ys 0 <= hi) ->
  lo <= interpolate.call_linear (interpolate.interp1d xs ys) q <= hi.
Proof using HN Hlen Hh Hxs.
  intros Hq Hys. destruct (clip_segment q Hq) as (Hhi & Hseg).
  unfold interpolate.call_linear. cbn [interpolate.x interpolate.y].
  rewrite Hlen.
  set (i := interpolate.clip (interpolate.searchsorted xs q) 1 (N - 1)) in *.
  apply chord_between.
  - apply (grid_increasing xs a h N HN Hlen Hh Hxs); lia.
  - exact Hseg.
  - apply Hys. lia.
  - apply Hys. lia.
Qed.

End GridBounds.

(** X9. Linear interpolation never overshoots its table: if S39 stays
    within [sl, sh] and R40 within [rl, rh], then at every query inside
    the grid [1, 2 * max] the interpolants of cell 3 answer, with values
    within the same bounds. *)
Theorem interpolants_within_tables :
  forall S39 R40 Kalpha chi0 k m sl sh rl rh,
    np.max (gmdist k) = Ok m -> 1 / 2 < m ->
    (forall chi, sl <= S39 chi Kalpha <= sh) ->
    (forall chi gm, rl <= R40 chi gm Kalpha <= rh) ->
    exists S_intrp R_intrp,
      cell3 S39 R40 Kalpha chi0 k = Ok ((S_intrp, R_intrp), k)
      /\ forall q, 1 <= q <= 2 * m ->
           exists s r,
             interpolate.call S_intrp q = Ok s /\ sl <= s <= sh
             /\ interpolate.call R_intrp q = Ok r /\ rl <= r <= rh.
Proof.
  intros S39 R40 Kalpha chi0 k m sl sh rl rh Hmax Hm HS HR.
  eexists _, _. split; [apply (cell3_closed _ _ _ _ _ _ Hmax)|].
  intros q Hq.
  pose proof (linspace_length 1 (2 * m) 200) as Hlen.
  assert (0 < (2 * m - 1) / 199) as Hh by (apply Rdiv_lt_0_compat; lra).
  pose proof (gmlst_nth m) as Hxs.
  assert (nth 0 (np.linspace 1 (2 * m) 200) 0 <= q
          <= nth (200 - 1) (np.linspace 1 (2 * m) 200) 0) as Hin.
  { change (200 - 1)%nat with 199%nat. now rewrite gmlst_first, gmlst_last. }
  eexists _, _.
  rewrite !(call_in_range _ _ 200 Hlen) by exact Hin.
  split; [reflexivity|]. split; [|split; [reflexivity|]].
  - apply (call_linear_within _ _ 1 _ 200 ltac:(lia) Hlen Hh Hxs _ _ _ Hin).
    intros i Hi. rewrite nth_map_lt by (rewrite Hlen; exact Hi). apply HS.
  - apply (call_linear_within _ _ 1 _ 200 ltac:(lia) Hlen Hh Hxs _ _ _ Hin).
    intros i Hi. rewrite nth_map_lt by (rewrite Hlen; exact Hi). apply HR.
Qed.

Lemma interpolants_within_tables_witness :
  exists S_intrp R_intrp,
    cell3 (fun chi _ => Rabs (sin chi)) (fun _ _ _ => 1 / 2) 1 0.1
          (Kernel [1800] [1800] [0] [0] 0)
    = Ok ((S_intrp, R_intrp), Kernel [1800] [1800] [0] [0] 0)
    /\ forall q, 1 <= q <= 2 * 1800 ->
         exists s r,
           interpolate.call S_intrp q = Ok s /\ 0 <= s <= 1
           /\ interpolate.call R_intrp q = Ok r /\ 0 <= r <= 1.
Proof.
  apply (interpolants_within_tables (fun chi _ => Rabs (sin chi))
           (fun _ _ _ => 1 / 2) 1 0.1 (Kernel [1800] [1800] [0] [0] 0) 1800
           0 1 0 1 eq_refl); [lra | | intros; lra].
  intros chi. split; [apply Rabs_pos|].
  apply Rabs_le. pose proof (SIN_bound chi). lra.
Defined.

(** ** Square roots in the loop *)

Lemma gmlst_call_Ok_within m (ys : list R) lo hi q v :
  1 / 2 < m ->
  (forall i, (i < 200)%nat -> lo <= nth i ys 0 <= hi) ->
  interpolate.call (interpolate.interp1d (np.linspace 1 (2 * m) 200) ys) q = Ok v ->
  1 <= q <= 2 * m /\ lo <= v <= hi.
Proof.
  intros Hm Hys Hcall.
  pose proof (linspace_length 1 (2 * m) 200) as Hlen.
  assert (0 < (2 * m - 1) / 199) as Hh by (apply Rdiv_lt_0_compat; lra).
  pose proof (gmlst_nth m) as Hxs.
  unfold interpolate.call in Hcall. cbn [interpolate.x] in Hcall.
  rewrite Hlen in Hcall. change (200 - 1)%nat with 199%nat in Hcall.
  rewrite gmlst_first, gmlst_last in Hcall.
  destruct (Rlt_dec q 1) as [|Hq1]; [discriminate|].
  destruct (Rlt_dec (2 * m) q) as [|Hq2]; [discriminate|].
  injection Hcall as <-. split; [lra|].
  apply (call_linear_within _ _ 1 _ 200 ltac:(lia) Hlen Hh Hxs); [|exact Hys].
  change (200 - 1)%nat with 199%nat. rewrite gmlst_first, gmlst_last. lra.
Qed.

Lemma sampled_max_ge_1 (f : nat -> R) Nsmpl m :
  np.max (mask_below_1 (map f (range Nsmpl))) = Ok m -> 1 <= m.
Proof.
  intros Hmax. apply np_max_spec in Hmax as [Hin _].
  pose proof (mask_below_1_physical (map f (range Nsmpl))) as HP.
  unfold physical in HP. rewrite Forall_forall in HP. now apply HP.
Qed.

Lemma gmlst_call_Ok_lower m (ys : list R) lo q v :
  1 / 2 < m ->
  (forall i, (i < 200)%nat -> lo <= nth i ys 0) ->
  interpolate.call (interpolate.interp1d (np.linspace 1 (2 * m) 200) ys) q = Ok v ->
  lo <= v.
Proof.
  intros Hm Hys Hcall.
  pose proof (linspace_length 1 (2 * m) 200) as Hlen.
  assert (0 < (2 * m - 1) / 199) as Hh by (apply Rdiv_lt_0_compat; lra).
  pose proof (gmlst_nth m) as Hxs.
  unfold interpolate.call in Hcall. cbn [interpolate.x] in Hcall.
  rewrite Hlen in Hcall. change (200 - 1)%nat with 199%nat in Hcall.
  rewrite gmlst_first, gmlst_last in Hcall.
  destruct (Rlt_dec q 1) as [|Hq1]; [discriminate|].
  destruct (Rlt_dec (2 * m) q) as [|Hq2]; [discriminate|].
  assert (v = interpolate.call_linear
                (interpolate.interp1d (np.linspace 1 (2 * m) 200) ys) q)
    as -> by congruence.
  clear Hcall.
  assert (nth 0 (np.linspace 1 (2 * m) 200) 0 <= q
          <= nth (200 - 1) (np.linspace 1 (2 * m) 200) 0) as Hin.
  { change (200 - 1)%nat with 199%nat. rewrite gmlst_first, gmlst_last. lra. }
  destruct (clip_segment _ 1 _ 200 ltac:(lia) Hlen Hh Hxs q Hin) as (Hhi & Hseg).
  unfold interpolate.call_linear. cbn [interpolate.x interpolate.y].
  rewrite Hlen.
  set (i := interpolate.clip (interpolate.searchsorted _ q) 1 (200 - 1)) in *.
  apply (chord_between (nth (i - 1) ys 0) (nth i ys 0) _ _ q lo
           (Rmax (nth (i - 1) ys 0) (nth i ys 0))).
  - apply (grid_increasing _ 1 _ 200 ltac:(lia) Hlen Hh Hxs); lia.
  - exact Hseg.
  - split; [apply Hys; lia|apply Rmax_l].
  - split; [apply Hys; lia|apply Rmax_r].
Qed.

Section NoMathDomain.

Variable dt : R.
Variables S_intrp R_intrp : R -> result R.
Hypothesis Hdt : 0 <= dt.
Hypothesis HS : forall g, S_intrp g <> Raise ValueError_math_domain.
Hypothesis HR : forall g, R_intrp g <> Raise ValueError_math_domain.
Hypothesis HR0 : forall g r, R_intrp g = Ok r -> 0 <= r.

Lemma pushed_no_math_domain z g :
  pushed dt S_intrp R_intrp z g <> Raise ValueError_math_domain.
Proof using Hdt HS HR HR0.
  unfold pushed. pose proof (HS g). pose proof (HR g). pose proof (HR0 g).
  destruct (S_intrp g) as [Sv|e]; [|congruence].
  destruct (R_intrp g) as [Rv|e]; [|congruence].
  rewrite (sqrt_nonneg dt Hdt), (sqrt_nonneg Rv) by auto. discriminate.
Qed.

Lemma cell4_no_math_domain Nsmpl tdim randn k :
  cell4 Nsmpl tdim dt S_intrp R_intrp randn k <> Raise ValueError_math_domain.
Proof using Hdt HS HR HR0.
  assert (forall k0, sweep Nsmpl dt S_intrp R_intrp randn k0
                     <> Raise ValueError_math_domain) as Hsweep.
  { intros k0. apply (for_never (fun _ => True)); [|easy|exact I].
    intros i k1 _. rewrite particle_closed.
    destruct (gmdist k1 !! i) as [g|]; [|discriminate].
    pose proof (pushed_no_math_domain (randn (randn_calls k1)) g).
    destruct (pushed _ _ _ _ g); [discriminate|congruence]. }
  unfold cell4, bind.
  pose proof (for_never (fun _ => True) ValueError_math_domain (range tdim)
                (timestep Nsmpl tdim dt S_intrp R_intrp randn)) as H.
  destruct (for_ _ _ k) as [[[] k1]|e] eqn:Hloop; [discriminate|].
  intros [= ->]. revert Hloop. apply H; [|easy|exact I].
  intros t k1 _. rewrite timestep_sweep. pose proof (Hsweep k1).
  destruct (sweep _ _ _ _ _ k1) as [[[] k2]|e]; [discriminate|congruence].
Qed.

End NoMathDomain.

Lemma call_no_math_domain f g :
  interpolate.call f g <> Raise ValueError_math_domain.
Proof.
  intros H. apply call_raise_inv in H as [H|H]; discriminate.
Qed.

(** X10. If R40 is nowhere negative and dt = tmax/tdim is not negative,
    no square root of the notebook ever fails: the run never ends in the
    math-domain outcome, so the only failure left to the loop is a
    particle kicked above the grid. *)
Theorem square_roots_defined :
  forall S39 R40 Kalpha Nsmpl chi0 tmax tdim standard_normal randn,
    (forall chi gm, 0 <= R40 chi gm Kalpha) ->
    0 <= tmax / IZR tdim ->
    notebook S39 R40 Kalpha Nsmpl chi0 tmax tdim standard_normal randn
    <> Raise ValueError_math_domain.
Proof.
  intros S39 R40 Kalpha Nsmpl chi0 tmax tdim standard_normal randn HR40 Hdt.
  unfold notebook, bind.
  destruct (cell2 _ _ _ _ _) as [[dt k0]|e] eqn:H2.
  2:{ unfold cell2 in H2. destruct (Nsmpl <? 0)%Z; [congruence|].
      destruct (tdim =? 0)%Z; congruence. }
  pose proof (cell2_Ok_inv _ _ _ _ _ _ _ H2) as Hg.
  assert (dt = tmax / IZR tdim) as ->.
  { unfold cell2 in H2. destruct (Nsmpl <? 0)%Z; [discriminate|].
    destruct (tdim =? 0)%Z; [discriminate|]. now injection H2 as <- _. }
  unfold cell3. destruct (np.max (gmdist k0)) as [m|e] eqn:Hmax.
  2:{ unfold np.max in Hmax. destruct (gmdist k0); congruence. }
  rewrite Hg in Hmax. apply sampled_max_ge_1 in Hmax.
  cbv zeta. cbn [fst snd].
  pose proof (cell4_no_math_domain (tmax / IZR tdim)
                (interpolate.call
                   (interpolate.interp1d (np.linspace 1 (2 * m) 200)
                      (map (fun gm => S39 (gm / 1800 * chi0) Kalpha)
                           (np.linspace 1 (2 * m) 200))))
                (interpolate.call
                   (interpolate.interp1d (np.linspace 1 (2 * m) 200)
                      (map (fun gm => R40 (gm / 1800 * chi0) gm Kalpha)
                           (np.linspace 1 (2 * m) 200))))
                Hdt (call_no_math_domain _) (call_no_math_domain _)) as H4.
  destruct (cell4 _ _ _ _ _ _ k0) as [[[] k]|e] eqn:Hrun; [discriminate|].
  intros [= ->]. revert Hrun. apply H4.
  intros g r Hr.
  apply (gmlst_call_Ok_lower m _ 0) in Hr; [exact Hr|lra|].
  intros i Hi. rewrite nth_map_lt by (rewrite linspace_length; exact Hi).
  apply HR40.
Qed.

Lemma square_roots_defined_witness :
  notebook (fun _ _ => 0) (fun _ _ _ => 1) 1 1 0.1 2 2 (fun _ => 0) (fun _ => 10000)
  <> Raise ValueError_math_domain.
Proof.
  apply (square_roots_defined (fun _ _ => 0) (fun _ _ _ => 1) 1 1 0.1 2 2
           (fun _ => 0) (fun _ => 10000)).
  - intros. lra.
  - lra.
Defined.

(** ** Zero diffusion *)

Section ZeroDiffusion.

Variable dt : R.
Variables S_intrp R_intrp : R -> result R.
Hypothesis HR0 : forall g r, R_intrp g = Ok r -> r = 0.

Lemma pushed_zero_diffusion z1 z2 g :
  pushed dt S_intrp R_intrp z1 g = pushed dt S_intrp R_intrp z2 g.
Proof using HR0.
  unfold pushed. destruct (S_intrp g) as [Sv|e]; [|reflexivity].
  destruct (R_intrp g) as [Rv|e] eqn:HR; [|reflexivity].
  apply HR0 in HR as ->.
  destruct (pushers.sqrt dt) as [sd|e]; [|reflexivity].
  rewrite (sqrt_nonneg 0) by lra. rewrite sqrt_0. do 2 f_equal. lra.
Qed.

Lemma cell4_zero_diffusion Nsmpl tdim r1 r2 k :
  cell4 Nsmpl tdim dt S_intrp R_intrp r1 k
  = cell4 Nsmpl tdim dt S_intrp R_intrp r2 k.
Proof using HR0.
  unfold cell4, bind.
  rewrite (for_ext _ _ (timestep Nsmpl tdim dt S_intrp R_intrp r2)); [reflexivity|].
  intros t k0 _. rewrite !timestep_sweep. unfold sweep.
  rewrite (for_ext _ _ (particle dt S_intrp R_intrp r2)); [reflexivity|].
  intros i k1 _. rewrite !particle_closed.
  destruct (gmdist k1 !! i) as [g|]; [|reflexivity].
  now rewrite (pushed_zero_diffusion (r1 (randn_calls k1)) (r2 (randn_calls k1))).
Qed.

End ZeroDiffusion.

(** X11. With a diffusion table that is zero everywhere the run does not
    depend on the draws of np.random at all: any two generators give the
    same three dumps, or the same exception. *)
Theorem zero_diffusion_ignores_noise :
  forall S39 R40 Kalpha Nsmpl chi0 tmax tdim standard_normal r1 r2,
    (forall chi gm, R40 chi gm Kalpha = 0) ->
    notebook S39 R40 Kalpha Nsmpl chi0 tmax tdim standard_normal r1
    = notebook S39 R40 Kalpha Nsmpl chi0 tmax tdim standard_normal r2.
Proof.
  intros S39 R40 Kalpha Nsmpl chi0 tmax tdim standard_normal r1 r2 HR40.
  unfold notebook, bind.
  destruct (cell2 _ _ _ _ _) as [[dt k0]|e] eqn:H2; [|reflexivity].
  apply cell2_Ok_inv in H2.
  unfold cell3. destruct (np.max (gmdist k0)) as [m|e] eqn:Hmax; [|reflexivity].
  rewrite H2 in Hmax. apply sampled_max_ge_1 in Hmax.
  cbv zeta. cbn [fst snd].
  assert (forall g r,
            interpolate.call
              (interpolate.interp1d (np.linspace 1 (2 * m) 200)
                 (map (fun gm => R40 (gm / 1800 * chi0) gm Kalpha)
                      (np.linspace 1 (2 * m) 200))) g = Ok r -> r = 0) as HR0.
  { intros g r Hr.
    apply (gmlst_call_Ok_within m _ 0 0) in Hr as [_ Hr]; [lra|lra|].
    intros i Hi. rewrite nth_map_lt by (rewrite linspace_length; exact Hi).
    rewrite HR40. lra. }
  now rewrite (cell4_zero_diffusion _ _ _ HR0 _ _ r1 r2).
Qed.

Lemma zero_diffusion_ignores_noise_witness :
  notebook (fun _ _ => 10) (fun _ _ _ => 0) 1 3 0.1 0.01 2 (fun _ => 0) (fun _ => 0)
  = notebook (fun _ _ => 10) (fun _ _ _ => 0) 1 3 0.1 0.01 2 (fun _ => 0)
             (fun n => INR n).
Proof.
  apply (zero_diffusion_ignores_noise (fun _ _ => 10) (fun _ _ _ => 0) 1 3 0.1
           0.01 2 (fun _ => 0) (fun _ => 0) (fun n => INR n)).
  reflexivity.
Defined.

(** ** Drift without diffusion *)


Section DriftOnly.

Variable dt m : R.
Variables S_intrp R_intrp : R -> result R.
Variable b : list R.
Hypothesis Hdt : 0 <= dt.
Hypothesis HS : forall g, 1 <= g <= m -> exists s, S_intrp g = Ok s /\ 0 <= s.
Hypothesis HR : forall g, 1 <= g <= m -> R_intrp g = Ok 0.
Hypothesis Hb : forall v, v ∈ b -> v <= m.






End DriftOnly.



(** ** The particle count and the length of the ensemble *)

Lemma sweep_needs_entries Nsmpl dt S_intrp R_intrp randn k k' :
  sweep Nsmpl dt S_intrp R_intrp randn k = Ok (tt, k') ->
  (Z.to_nat Nsmpl <= length (gmdist k))%nat.
Proof.
  intros H. unfold sweep, range in H.
  apply pass_result_intro in H as (_ & _ & _ & Hin); [|apply NoDup_seq].
  destruct (Z.to_nat Nsmpl) as [|n]; [lia|].
  destruct (Hin n n) as (g & _ & Hg & _); [apply lookup_seq_lt; lia|].
  apply lookup_lt_Some in Hg. lia.
Qed.

Lemma sweep_beyond Nsmpl dt S_intrp R_intrp randn k k' :
  sweep Nsmpl dt S_intrp R_intrp randn k = Ok (tt, k') ->
  forall i, (Z.to_nat Nsmpl <= i)%nat -> gmdist k' !! i = gmdist k !! i.
Proof.
  intros H i Hi. unfold sweep, range in H.
  apply pass_result_intro in H as (_ & _ & Hout & _); [|apply NoDup_seq].
  apply Hout. rewrite elem_of_seq. lia.
Qed.

(** X13. The loop advances exactly the first Nsmpl entries of gmdist:
    a run with T > 0 can only complete if the ensemble has at least
    Nsmpl entries (a shorter one ends in an index error or earlier), and
    entries from index Nsmpl on are never changed. *)
Theorem loop_advances_first_Nsmpl :
  forall Nsmpl tdim dt S_intrp R_intrp randn k k',
    cell4 Nsmpl tdim dt S_intrp R_intrp randn k = Ok (tt, k') ->
    ((0 < tdim)%Z -> (Z.to_nat Nsmpl <= length (gmdist k))%nat)
    /\ (forall i, (Z.to_nat Nsmpl <= i)%nat -> gmdist k' !! i = gmdist k !! i).
Proof.
  intros Nsmpl tdim dt S_intrp R_intrp randn k k' H. unfold cell4 in H.
  apply bind_Ok_inv in H as ([] & k1 & Hloop & Hsave).
  unfold save_dump3 in Hsave. injection Hsave as <-. cbn [gmdist]. split.
  - intros HT. unfold range in Hloop.
    destruct (Z.to_nat tdim) as [|T] eqn:ET; [lia|].
    cbn [seq for_] in Hloop.
    apply bind_Ok_inv in Hloop as ([] & k2 & Hstep & _).
    rewrite timestep_sweep in Hstep.
    destruct (sweep _ _ _ _ _ k) as [[[] k3]|e] eqn:Hs; [|discriminate].
    now apply sweep_needs_entries in Hs.
  - revert Hloop.
    apply (for_invariant
             (fun k0 => forall i, (Z.to_nat Nsmpl <= i)%nat ->
                                  gmdist k0 !! i = gmdist k !! i)); [|easy].
    intros t k2 k3 _ H2. rewrite timestep_sweep.
    destruct (sweep _ _ _ _ _ k2) as [[[] k4]|e] eqn:Hs; [|discriminate].
    intros [= <-] i Hi. rewrite <- (H2 i Hi).
    rewrite <- (sweep_beyond _ _ _ _ _ _ _ Hs i Hi).
    now destruct (Z.of_nat t =? _)%Z.
Qed.

Lemma loop_advances_first_Nsmpl_witness :
  let k := Kernel [1800; 1800; 1800] [1800; 1800; 1800] [0; 0; 0] [0; 0; 0] 0 in
  let g' := [1800 - 0.05 - 0.05; 1800 - 0.05 - 0.05; 1800 - 0.05 - 0.05] in
  ((0 < 2)%Z -> (Z.to_nat 3 <= length (gmdist k))%nat)
  /\ (forall i, (Z.to_nat 3 <= i)%nat ->
        gmdist (Kernel g' [1800; 1800; 1800] g' g' 6) !! i = gmdist k !! i).
Proof.
  intros k g'.
  apply (loop_advances_first_Nsmpl 3 2 0.005 (fun _ => Ok 10) (fun _ => Ok 0)
           (fun _ => 0) k (Kernel g' [1800; 1800; 1800] g' g' 6)).
  apply cell4_drift_only.
Defined.

(** ** The histograms of cell 5 *)

Lemma histogram_length (a bins : list R) :
  length (np.histogram a bins) = (length bins - 1)%nat.
Proof.
  induction bins as [|lo [|hi rest] IH]; [reflexivity|reflexivity|].
  cbn [np.histogram length] in *. rewrite IH. lia.
Qed.

Lemma bin_split lo hi last (a : list R) :
  lo <= hi -> hi <= last ->
  (length (List.filter (np.in_bin lo hi false) a) + length (within hi last a))%nat
  = length (within lo last a).
Proof.
  intros H1 H2. unfold within, np.in_bin. cbn [andb].
  induction a as [|v a IH]; [reflexivity|]. cbn [List.filter].
  destruct (Rle_dec lo v), (Rlt_dec v hi), (Rle_dec hi v), (Rle_dec v last);
    cbn [length]; try lra; lia.
Qed.

Lemma last_bin lo hi (a : list R) :
  List.filter (np.in_bin lo hi true) a = within lo hi a.
Proof.
  unfold within, np.in_bin. cbn [andb].
  induction a as [|v a IH]; [reflexivity|].
  cbn [List.filter]. rewrite IH.
  destruct (Rle_dec lo v), (Rlt_dec v hi), (Rle_dec v hi);
    try reflexivity; lra.
Qed.

Lemma histogram_total (a bins : list R) :
  (2 <= length bins)%nat ->
  (forall i j, (i <= j < length bins)%nat -> nth i bins 0 <= nth j bins 0) ->
  sum_list (np.histogram a bins)
  = length (within (nth 0 bins 0) (nth (length bins - 1) bins 0) a).
Proof.
  induction bins as [|lo [|hi rest] IH]; intros Hlen Hmono;
    [cbn in Hlen; lia|cbn in Hlen; lia|].
  destruct rest as [|r rest].
  - cbn [np.histogram length nth Nat.sub].
    change (sum_list [?n]) with (n + 0)%nat.
    rewrite last_bin. lia.
  - change (np.histogram a (lo :: hi :: r :: rest))
      with (length (List.filter (np.in_bin lo hi false) a)
            :: np.histogram a (hi :: r :: rest)).
    change (sum_list (?n :: ?l)) with (n + sum_list l)%nat.
    rewrite IH.
    + change (nth 0 (hi :: r :: rest) 0) with hi.
      change (nth 0 (lo :: hi :: r :: rest) 0) with lo.
      replace (length (lo :: hi :: r :: rest) - 1)%nat
        with (S (length (hi :: r :: rest) - 1)) by (cbn [length]; lia).
      change (nth (S (length (hi :: r :: rest) - 1)) (lo :: hi :: r :: rest) 0)
        with (nth (length (hi :: r :: rest) - 1) (hi :: r :: rest) 0).
      apply bin_split.
      * apply (Hmono 0%nat 1%nat). cbn. lia.
      * apply (Hmono 1%nat (S (length (hi :: r :: rest) - 1))). cbn. lia.
    + cbn. lia.
    + intros i j Hij. apply (Hmono (S i) (S j)). cbn in *. lia.
Qed.

Lemma bin_edges_nth i :
  (i < 50)%nat -> nth i bin_edges 0 = 1 + INR i * ((1800 + 4 * 90 - 1) / INR 49).
Proof. intros Hi. unfold bin_edges, nbins. now rewrite linspace_nth by lia. Qed.

(** X14. Each histogram of cell 5 has 49 bins over the 50 edges from 1
    to 2160, and its counts add up to the number of particles of the
    dump within [1, 2160]: a particle above 2160 is counted nowhere, and
    no particle is counted twice. *)
Theorem histogram_counts_particles :
  forall (arraycenter : list R -> list R) (dump : list R),
    let gmdist_y := fst (dump_histogram arraycenter dump) in
    length bin_edges = 50%nat
    /\ nth 0 bin_edges 0 = 1
    /\ nth 49 bin_edges 0 = 1800 + 4 * 90
    /\ length gmdist_y = 49%nat
    /\ sum_list gmdist_y = length (within 1 (1800 + 4 * 90) dump)
    /\ (sum_list gmdist_y <= length dump)%nat.
Proof.
  intros arraycenter dump gmdist_y. subst gmdist_y.
  unfold dump_histogram. cbn [fst].
  assert (length bin_edges = 50%nat) as Hlen by apply linspace_length.
  assert (INR 49 <> 0) as H49 by (apply not_0_INR; lia).
  assert (nth 0 bin_edges 0 = 1) as H0.
  { rewrite bin_edges_nth by lia. cbn [INR]. lra. }
  assert (nth 49 bin_edges 0 = 1800 + 4 * 90) as Hlast.
  { rewrite bin_edges_nth by lia. field. exact H49. }
  assert (sum_list (np.histogram dump bin_edges)
          = length (within 1 (1800 + 4 * 90) dump)) as Hsum.
  { rewrite histogram_total.
    - rewrite Hlen. change (50 - 1)%nat with 49%nat. now rewrite H0, Hlast.
    - rewrite Hlen. lia.
    - rewrite Hlen. intros i j Hij. rewrite !bin_edges_nth by lia.
      assert (INR i <= INR j) by (apply le_INR; lia).
      assert (0 < (1800 + 4 * 90 - 1) / INR 49).
      { apply Rdiv_lt_0_compat; [lra|]. apply lt_0_INR. lia. }
      nra. }
  split; [exact Hlen|]. split; [exact H0|]. split; [exact Hlast|].
  split; [|split; [exact Hsum|]].
  - rewrite histogram_length, Hlen. reflexivity.
  - rewrite Hsum. unfold within. apply filter_length_le.
Qed.

(** ** Tables that are linear in gamma *)

Lemma gmlst_call_linear_affine m (ys : list R) al be q :
  1 / 2 < m ->
  (forall i, (i < 200)%nat ->
     nth i ys 0 = al * nth i (np.linspace 1 (2 * m) 200) 0 + be) ->
  interpolate.call_linear (interpolate.interp1d (np.linspace 1 (2 * m) 200) ys) q
  = al * q + be.
Proof.
  intros Hm Hys.
  pose proof (linspace_length 1 (2 * m) 200) as Hlen.
  assert (0 < (2 * m - 1) / 199) as Hh by (apply Rdiv_lt_0_compat; lra).
  pose proof (gmlst_nth m) as Hxs.
  unfold interpolate.call_linear. cbn [interpolate.x interpolate.y].
  rewrite Hlen.
  set (i := interpolate.clip (interpolate.searchsorted _ q) 1 (200 - 1)).
  assert (1 <= i < 200)%nat as Hi by (unfold i, interpolate.clip; lia).
  pose proof (grid_increasing _ 1 _ 200 ltac:(lia) Hlen Hh Hxs (i - 1) i
                ltac:(lia) ltac:(lia)) as Hinc.
  rewrite !Hys by lia. field. lra.
Qed.

(** X15. Linear interpolation is exact on tables that are linear in
    gamma: if S39 and R40, along the grid, are of the form
    alpha * gamma + beta, the interpolants of cell 3 return exactly
    alpha * q + beta at every query q inside the grid. *)
Theorem interpolants_exact_on_linear :
  forall S39 R40 Kalpha chi0 k m aS bS aR bR,
    np.max (gmdist k) = Ok m -> 1 / 2 < m ->
    (forall gm, S39 (gm / 1800 * chi0) Kalpha = aS * gm + bS) ->
    (forall gm, R40 (gm / 1800 * chi0) gm Kalpha = aR * gm + bR) ->
    exists S_intrp R_intrp,
      cell3 S39 R40 Kalpha chi0 k = Ok ((S_intrp, R_intrp), k)
      /\ forall q, 1 <= q <= 2 * m ->
           interpolate.call S_intrp q = Ok (aS * q + bS)
           /\ interpolate.call R_intrp q = Ok (aR * q + bR).
Proof.
  intros S39 R40 Kalpha chi0 k m aS bS aR bR Hmax Hm HS HR.
  eexists _, _. split; [apply (cell3_closed _ _ _ _ _ _ Hmax)|].
  intros q Hq.
  pose proof (linspace_length 1 (2 * m) 200) as Hlen.
  assert (nth 0 (np.linspace 1 (2 * m) 200) 0 <= q
          <= nth (200 - 1) (np.linspace 1 (2 * m) 200) 0) as Hin.
  { change (200 - 1)%nat with 199%nat. now rewrite gmlst_first, gmlst_last. }
  rewrite !(call_in_range _ _ 200 Hlen) by exact Hin.
  split; f_equal; apply gmlst_call_linear_affine; try exact Hm;
    intros i Hi; rewrite nth_map_lt by (rewrite Hlen; exact Hi).
  - apply HS.
  - apply HR.
Qed.

Lemma interpolants_exact_on_linear_witness :
  exists S_intrp R_intrp,
    cell3 (fun chi _ => 3 * chi) (fun _ gm _ => 2 * gm + 1) 1 0.1
          (Kernel [1800] [1800] [0] [0] 0)
    = Ok ((S_intrp, R_intrp), Kernel [1800] [1800] [0] [0] 0)
    /\ forall q, 1 <= q <= 2 * 1800 ->
         interpolate.call S_intrp q = Ok (3 / 18000 * q + 0)
         /\ interpolate.call R_intrp q = Ok (2 * q + 1).
Proof.
  apply (interpolants_exact_on_linear (fun chi _ => 3 * chi)
           (fun _ gm _ => 2 * gm + 1) 1 0.1 (Kernel [1800] [1800] [0] [0] 0)
           1800 (3 / 18000) 0 2 1 eq_refl).
  - lra.
  - intros gm. lra.
  - intros gm. reflexivity.
Defined.

(** ** A sweep, particle by particle *)

(** X16. A sweep over an ensemble of Nsmpl entries updates every particle
    from its own previous Lorentz factor and its own draw, the i-th of
    the sweep, independently of the others: it completes exactly when
    the body's update is defined for each particle, and then entry i
    holds that update, the dumps are unchanged and Nsmpl draws are
    gone. *)
Theorem sweep_pointwise :
  forall Nsmpl dt S_intrp R_intrp randn k k',
    length (gmdist k) = Z.to_nat Nsmpl ->
    sweep Nsmpl dt S_intrp R_intrp randn k = Ok (tt, k')
    <-> k' = with_gmdist (gmdist k') (randn_calls k + Z.to_nat Nsmpl) k
        /\ length (gmdist k') = Z.to_nat Nsmpl
        /\ (forall i, (i < Z.to_nat Nsmpl)%nat ->
              exists g v,
                gmdist k !! i = Some g
                /\ pushed dt S_intrp R_intrp (randn (randn_calls k + i)%nat) g = Ok v
                /\ gmdist k' !! i = Some v).
Proof.
  intros Nsmpl dt S_intrp R_intrp randn k k' Hlen. unfold sweep, range.
  split.
  - intros H. apply pass_result_intro in H as (Hk' & Hl & _ & Hin);
      [|apply NoDup_seq].
    rewrite length_seq in Hk'. split; [exact Hk'|]. split; [congruence|].
    intros i Hi. apply (Hin i i). now apply lookup_seq_lt.
  - intros (Hk' & Hl & Hin). apply pass_result_elim; [apply NoDup_seq|].
    unfold pass_result. rewrite length_seq. split; [exact Hk'|].
    split; [congruence|]. split.
    + intros i Hi. rewrite elem_of_seq in Hi.
      rewrite !(lookup_ge_None_2 _ i) by lia. reflexivity.
    + intros j i Hj. apply lookup_seq in Hj as [-> Hj]. apply (Hin j Hj).
Qed.

Lemma sweep_pointwise_witness :
  let k := Kernel [1800; 1801; 1802] [] [] [] 0 in
  let k' := Kernel [1800 - 0.05; 1801 - 0.05; 1802 - 0.05] [] [] [] 3 in
  k' = with_gmdist (gmdist k') (randn_calls k + Z.to_nat 3) k
  /\ length (gmdist k') = Z.to_nat 3
  /\ (forall i, (i < Z.to_nat 3)%nat ->
        exists g v,
          gmdist k !! i = Some g
          /\ pushed 0.005 (fun _ => Ok 10) (fun _ => Ok 0) 0 g = Ok v
          /\ gmdist k' !! i = Some v).
Proof.
  intros k k'.
  apply (proj1 (sweep_pointwise 3 0.005 (fun _ => Ok 10) (fun _ => Ok 0)
                  (fun _ => 0) k k' eq_refl)).
  apply sweep_drift_only; lra.
Defined.

(** ** The grid and the maximum of the ensemble *)

Lemma np_max_complete (a : list R) m :
  m ∈ a -> (forall v, v ∈ a -> v <= m) -> np.max a = Ok m.
Proof.
  intros Hin Hall. destruct (np.max a) as [m'|e] eqn:Hmax.
  - apply np_max_spec in Hmax as [Hin' Hall'].
    pose proof (Hall m' Hin'). pose proof (Hall' m Hin).
    f_equal. lra.
  - unfold np.max in Hmax. destruct a; [|discriminate].
    now apply not_elem_of_nil in Hin.
Qed.

(** C8. For an ensemble whose largest Lorentz factor is m, the grid of
    cell 3 has exactly 200 nodes, node i at 1 + i * (2 * m - 1) / 199, so
    equally spaced from 1 to twice that maximum with both ends included;
    between two neighbouring nodes each interpolant follows the chord
    through their tabulated values, and at a node it returns the
    tabulated value. *)
Theorem coefficient_grid :
  forall S39 R40 Kalpha chi0 k m,
    m ∈ gmdist k -> (forall v, v ∈ gmdist k -> v <= m) -> 1 / 2 < m ->
    np.max (gmdist k) = Ok m
    /\ exists gmlst S_lst R_lst,
      cell3 S39 R40 Kalpha chi0 k
      = Ok ((interpolate.interp1d gmlst S_lst, interpolate.interp1d gmlst R_lst), k)
      /\ length gmlst = 200%nat
      /\ (forall i, (i < 200)%nat ->
            nth i gmlst 0 = 1 + INR i * ((2 * m - 1) / 199))
      /\ nth 0 gmlst 0 = 1
      /\ nth 199 gmlst 0 = 2 * m
      /\ (forall i, (i < 200)%nat ->
            nth i S_lst 0 = S39 (nth i gmlst 0 / 1800 * chi0) Kalpha
            /\ nth i R_lst 0 = R40 (nth i gmlst 0 / 1800 * chi0) (nth i gmlst 0) Kalpha)
      /\ (forall i q, (i < 199)%nat ->
            nth i gmlst 0 <= q <= nth (S i) gmlst 0 ->
            interpolate.call (interpolate.interp1d gmlst S_lst) q
            = Ok (nth i S_lst 0
                  + (nth (S i) S_lst 0 - nth i S_lst 0)
                    / (nth (S i) gmlst 0 - nth i gmlst 0) * (q - nth i gmlst 0))
            /\ interpolate.call (interpolate.interp1d gmlst R_lst) q
               = Ok (nth i R_lst 0
                     + (nth (S i) R_lst 0 - nth i R_lst 0)
                       / (nth (S i) gmlst 0 - nth i gmlst 0) * (q - nth i gmlst 0)))
      /\ (forall i, (i < 200)%nat ->
            interpolate.call (interpolate.interp1d gmlst S_lst) (nth i gmlst 0)
            = Ok (nth i S_lst 0)
            /\ interpolate.call (interpolate.interp1d gmlst R_lst) (nth i gmlst 0)
               = Ok (nth i R_lst 0)).
Proof.
  intros S39 R40 Kalpha chi0 k m Hin Hall Hm.
  pose proof (np_max_complete _ _ Hin Hall) as Hmax.
  split; [exact Hmax|]. now apply cell3_grid.
Qed.

Lemma coefficient_grid_witness :
  let k := Kernel [7; 100; 42] [7; 100; 42] [0; 0; 0] [0; 0; 0] 0 in
  let S39 := fun chi _ : R => chi * chi in
  let R40 := fun chi gm _ : R => chi + gm in
  np.max (gmdist k) = Ok 100
  /\ exists gmlst S_lst R_lst,
    cell3 S39 R40 1 0.1 k
    = Ok ((interpolate.interp1d gmlst S_lst, interpolate.interp1d gmlst R_lst), k)
    /\ length gmlst = 200%nat
    /\ nth 0 gmlst 0 = 1
    /\ nth 199 gmlst 0 = 2 * 100
    /\ nth 7 S_lst 0 = S39 (nth 7 gmlst 0 / 1800 * 0.1) 1
    /\ interpolate.call (interpolate.interp1d gmlst S_lst) (nth 7 gmlst 0)
       = Ok (nth 7 S_lst 0)
    /\ interpolate.call (interpolate.interp1d gmlst R_lst) (nth 7 gmlst 0)
       = Ok (nth 7 R_lst 0).
Proof.
  intros k S39 R40.
  destruct (coefficient_grid S39 R40 1 0.1 k 100)
    as (Hmax & gmlst & S_lst & R_lst & H3 & Hlen & _ & H0 & H199 & Hys & _ & Hnode).
  - right. left.
  - intros v Hv. cbn [k gmdist] in Hv.
    repeat (apply elem_of_cons in Hv as [->|Hv]; [lra|]).
    now apply not_elem_of_nil in Hv.
  - lra.
  - split; [exact Hmax|]. exists gmlst, S_lst, R_lst.
    destruct (Hnode 7%nat ltac:(lia)) as [HS HR].
    destruct (Hys 7%nat ltac:(lia)) as [HyS _].
    now repeat split.
Defined.
